(** * uchuuichi: the spaced-repetition engine (lib/learning-algorithm.ts)

    A shallow embedding of [LearningAlgorithm.calculateNextReview],
    [LearningAlgorithm.getCardPriority] and
    [LearningAlgorithm.generateStudyDeck], and the properties of the
    scheduling engine that the specification states about them.

    Number model.  The fields [reviewCount], [correctCount], [confidence],
    [difficulty], the [quality] signal and the deck size are integers ([Z]);
    a [Date] is its time value, an integer number of milliseconds.  The
    fractional quantities of the source (interval in days, success rate,
    priority, the slot ratios 0.3 and 0.4) are exact rationals ([Q]) standing
    for the doubles of the source, so an equation between them is stated
    with [==].  Where the value of a double itself is at stake, as for what
    [getCardPriority] returns, the computation is also given in IEEE 754
    binary64 ([getCardPriority_double]).

    Object model.  Cards are objects and arrays hold references to them; a
    card is a location in a store that the engine only reads. *)

From Stdlib Require Import ZArith QArith Qround Qabs Lia Lqa SpecFloat.
From stdpp Require Import base decidable list sorting strings.

Open Scope Z_scope.

(** ** Data model (lib/types.ts) *)

Inductive CardType := definition | formula | separation | state_change | application.
Inductive Subject := chemistry | physics.

(** [Date] objects are compared and subtracted through their time value. *)
Definition Date := Z.

Record FlashCard := {
  id : string;
  question : string;
  answer : string;
  type : CardType;
  difficulty : Z;
  subject : Subject;
  chapter : string;
  page : option Z;
  imageUrl : option string;
  lastReviewed : option Date;
  reviewCount : Z;
  correctCount : Z;
  confidence : Z;
  nextReview : option Date;
  tags : option (list string)
}.

(** The result object [{ nextReview, confidence }] of [calculateNextReview]. *)
Module Review.
Record t := { nextReview : Date; confidence : Z }.
End Review.

(** ** The JavaScript primitives the engine uses *)

(** [ToIntegerOrInfinity]: truncation toward zero, applied by [new Date(t)]
    (TimeClip) to its time value. *)
Definition ToIntegerOrInfinity (q : Q) : Z := Z.quot (Qnum q) (Z.pos (Qden q)).

Definition new_Date (t : Q) : Date := ToIntegerOrInfinity t.

Definition Math_floor (q : Q) : Z := Qfloor q.

(** [x || d] on a number: 0 is falsy. *)
Definition or_default (x d : Z) : Z := if x =? 0 then d else x.

(** Strict comparisons of rationals, as booleans. *)
Definition Qgtb (x y : Q) : bool := negb (Qle_bool x y).
Definition Qltb (x y : Q) : bool := negb (Qle_bool y x).

(** ** ReviewScorer *)

Section Scorer.
(** [new Date()]: the current time, read once per call. *)
Variable now : Date.

Definition calculateNextReview (card : FlashCard) (quality : Z) : Review.t :=
  let interval : Q := 1%Q in
  let confidence := or_default (confidence card) 50 in
  let confidence :=
    if 3 <=? quality
    then Z.min 100 (confidence + (quality - 3) * 15)
    else Z.max 0 (confidence - (3 - quality) * 20) in
  let interval :=
    (if 90 <=? confidence then 7
     else if 70 <=? confidence then 3
     else if 50 <=? confidence then 1
     else if 30 <=? confidence then 0.25
     else 0.042)%Q in
  let interval :=
    if 0 <? reviewCount card then
      let successRate := (inject_Z (correctCount card) / inject_Z (reviewCount card))%Q in
      if Qgtb successRate 0.8 then (interval * 1.5)%Q
      else if Qltb successRate 0.5 then (interval * 0.5)%Q
      else interval
    else interval in
  let nextReview := new_Date (inject_Z now + interval * 24 * 60 * 60 * 1000)%Q in
  {| Review.nextReview := nextReview; Review.confidence := confidence |}.

(** The exact value of the priority formula, used to order cards; the
    double that the source returns is [getCardPriority_double] below. *)
Definition getCardPriority (card : FlashCard) : Q :=
  let priority : Q := 0%Q in
  if reviewCount card =? 0 then 0%Q
  else
    let priority :=
      match nextReview card with
      | Some nr =>
          if nr <? now then
            let overdueDays := ((inject_Z now - inject_Z nr) / (24 * 60 * 60 * 1000))%Q in
            (- overdueDays)%Q
          else
            let daysUntilReview := ((inject_Z nr - inject_Z now) / (24 * 60 * 60 * 1000))%Q in
            daysUntilReview
      | None => priority
      end in
    let priority := (priority - (100 - inject_Z (confidence card)) / 50)%Q in
    let priority := (priority - inject_Z (difficulty card) * 2)%Q in
    priority.
End Scorer.

(** *** The priority in double precision

    A JavaScript number is an IEEE 754 binary64 value; its operations round
    to nearest, ties to even.  An integer field or time value is the double
    nearest to it (itself, below 2^53). *)

Definition double := spec_float.
Definition double_of_Z (z : Z) : double := binary_normalize 53 1024 z 0 false.
Definition double_opp : double → double := SFopp.
Definition double_sub : double → double → double := SFsub 53 1024.
Definition double_mul : double → double → double := SFmul 53 1024.
Definition double_div : double → double → double := SFdiv 53 1024.

(** [24 * 60 * 60 * 1000], multiplied from the left. *)
Definition double_msPerDay : double :=
  double_mul (double_mul (double_mul (double_of_Z 24) (double_of_Z 60)) (double_of_Z 60))
             (double_of_Z 1000).

(** [getCardPriority] (lines 50-75) with the arithmetic of the source. *)
Definition getCardPriority_double (now : Date) (card : FlashCard) : double :=
  let priority := double_of_Z 0 in
  if reviewCount card =? 0 then double_of_Z 0
  else
    let priority :=
      match nextReview card with
      | Some nr =>
          if nr <? now then
            let overdueDays :=
              double_div (double_sub (double_of_Z now) (double_of_Z nr)) double_msPerDay in
            double_opp overdueDays
          else
            let daysUntilReview :=
              double_div (double_sub (double_of_Z nr) (double_of_Z now)) double_msPerDay in
            daysUntilReview
      | None => priority
      end in
    let priority :=
      double_sub priority
        (double_div (double_sub (double_of_Z 100) (double_of_Z (confidence card)))
                    (double_of_Z 50)) in
    let priority :=
      double_sub priority (double_mul (double_of_Z (difficulty card)) (double_of_Z 2)) in
    priority.

(** ** Arrays

    A pool is an array of references to card objects: [deck.includes(c)]
    compares references, so a card is modelled by its location and the
    store maps locations to the (unchanging) card records. *)

Definition loc := nat.
Definition store := loc → FlashCard.

(** [Array.prototype.slice]: a negative index counts from the end. *)
Definition relative_index (len : nat) (k : Z) : nat :=
  if k <? 0 then Z.to_nat (Z.max (Z.of_nat len + k) 0)
  else Z.to_nat (Z.min k (Z.of_nat len)).

Definition Array_slice {A} (l : list A) (start final : Z) : list A :=
  let k := relative_index (length l) start in
  let e := relative_index (length l) final in
  take (e - k)%nat (drop k l).

(** [slice(start)]: the end defaults to the length. *)
Definition Array_slice_from {A} (l : list A) (start : Z) : list A :=
  Array_slice l start (Z.of_nat (length l)).

(** [Array.prototype.sort] with a comparator is stable: of two elements,
    the later one moves in front only when the comparator is positive.  The
    comparators used here are differences of rationals, hence consistent, and
    for a consistent comparator the stable sorted arrangement is unique; it
    is computed here by insertion from the right. *)
Section Sort.
Context {A : Type} (compareFn : A → A → Q).

Fixpoint sort_insert (x : A) (l : list A) : list A :=
  match l with
  | [] => [x]
  | y :: l' =>
      if Qgtb (compareFn x y) 0 then y :: sort_insert x l' else x :: y :: l'
  end.

Fixpoint Array_sort (l : list A) : list A :=
  match l with
  | [] => []
  | x :: l' => sort_insert x (Array_sort l')
  end.
End Sort.

(** The destructuring swap [[a[i], a[j]] = [a[j], a[i]]].  Both indices are
    inside the array wherever the engine swaps (see [random_source_ok]);
    the model leaves the array alone otherwise. *)
Definition swap {A} (a : list A) (i j : nat) : list A :=
  match a !! j, a !! i with
  | Some aj, Some ai => <[j:=ai]> (<[i:=aj]> a)
  | _, _ => a
  end.

(** ** DeckBuilder *)

(** [Math.random]: the k-th call made by a shuffle returns [random k]. *)
Definition random_source := nat → Q.

(** ECMAScript: [Math.random()] is at least 0 and less than 1. *)
Definition random_source_ok (random : random_source) : Prop :=
  ∀ k, (0 <= random k)%Q ∧ (random k < 1)%Q.

Section DeckBuilder.
(** The current time, the card objects, and the random source.  The calls
    of [new Date()] made while one deck is built (one in the builder, one
    in each priority computed by the sort) are taken to read the same
    instant. *)
Variable now : Date.
Variable heap : store.
Variable random : random_source.

(** The comparator handed to [sort]. *)
Definition byPriority (a b : loc) : Q :=
  (getCardPriority now (heap a) - getCardPriority now (heap b))%Q.

(** The three [filter] callbacks. *)
Definition isNew (c : loc) : bool := reviewCount (heap c) =? 0.

Definition isDue (c : loc) : bool :=
  match nextReview (heap c) with
  | Some nr => (nr <=? now) && (0 <? reviewCount (heap c))
  | None => false
  end.

Definition isWeak (c : loc) : bool :=
  (confidence (heap c) <? 50) && (0 <? reviewCount (heap c)).

(** The loop [for (let i = toShuffle.length - 1; i > 0; i--)]; [k] counts
    the calls of [Math.random] made so far. *)
Fixpoint shuffle_loop (k i : nat) (toShuffle : list loc) : list loc :=
  match i with
  | O => toShuffle
  | S i' =>
      let j := Z.to_nat (Math_floor (random k * inject_Z (Z.of_nat i + 1))%Q) in
      shuffle_loop (S k) i' (swap toShuffle i j)
  end.

(** The parameter [focusOnWeak] is never read and is left out. *)
Definition generateStudyDeck (cards : list loc) (deckSize : Z) : list loc :=
  let deck : list loc := [] in
  let sortedCards := Array_sort byPriority cards in
  let newCards := filter isNew sortedCards in
  let dueCards := filter isDue sortedCards in
  let weakCards := filter isWeak sortedCards in
  let newCardLimit := Math_floor (inject_Z deckSize * 0.3)%Q in
  let weakCardLimit := Math_floor (inject_Z deckSize * 0.4)%Q in
  let dueCardLimit := deckSize - newCardLimit - weakCardLimit in
  let deck := deck ++ Array_slice newCards 0 newCardLimit in
  let deck := deck ++ Array_slice weakCards 0 weakCardLimit in
  let deck := deck ++ Array_slice dueCards 0 dueCardLimit in
  let deck :=
    if Z.of_nat (length deck) <? deckSize then
      let remaining := filter (λ c, c ∉ deck) sortedCards in
      deck ++ Array_slice remaining 0 (deckSize - Z.of_nat (length deck))
    else deck in
  let fixedCount := 3 in
  let toShuffle := Array_slice_from deck fixedCount in
  let toShuffle := shuffle_loop 0 (length toShuffle - 1) toShuffle in
  Array_slice deck 0 fixedCount ++ toShuffle.
End DeckBuilder.

(** ** The steps of the two operations, named

    The intermediate values of [calculateNextReview] and
    [generateStudyDeck], for the statements below; the lemmas
    [calculateNextReview_steps] and [generateStudyDeck_unfold] show that
    the operations are made of them. *)

(** Lines 12-19: the confidence after the update. *)
Definition confidenceUpdate (card : FlashCard) (quality : Z) : Z :=
  let confidence := or_default (confidence card) 50 in
  if 3 <=? quality
  then Z.min 100 (confidence + (quality - 3) * 15)
  else Z.max 0 (confidence - (3 - quality) * 20).

(** Lines 22-32: the interval chosen from the confidence. *)
Definition baseInterval (confidence : Z) : Q :=
  (if 90 <=? confidence then 7
   else if 70 <=? confidence then 3
   else if 50 <=? confidence then 1
   else if 30 <=? confidence then 0.25
   else 0.042)%Q.

(** Lines 35-42: the interval after the success-rate adjustment. *)
Definition adjustInterval (card : FlashCard) (interval : Q) : Q :=
  if 0 <? reviewCount card then
    let successRate := (inject_Z (correctCount card) / inject_Z (reviewCount card))%Q in
    if Qgtb successRate 0.8 then (interval * 1.5)%Q
    else if Qltb successRate 0.5 then (interval * 0.5)%Q
    else interval
  else interval.

Section DeckSteps.
Variable now : Date.
Variable heap : store.

(** Line 87. *)
Definition sortedCards (cards : list loc) : list loc :=
  Array_sort (byPriority now heap) cards.

(** Lines 101-103. *)
Definition newCardLimit (deckSize : Z) : Z := Math_floor (inject_Z deckSize * 0.3)%Q.
Definition weakCardLimit (deckSize : Z) : Z := Math_floor (inject_Z deckSize * 0.4)%Q.
Definition dueCardLimit (deckSize : Z) : Z :=
  deckSize - newCardLimit deckSize - weakCardLimit deckSize.

(** The deck after the three pushes (lines 106-108). *)
Definition quotaDeck (cards : list loc) (deckSize : Z) : list loc :=
  Array_slice (filter (isNew heap) (sortedCards cards)) 0 (newCardLimit deckSize)
  ++ Array_slice (filter (isWeak heap) (sortedCards cards)) 0 (weakCardLimit deckSize)
  ++ Array_slice (filter (isDue now heap) (sortedCards cards)) 0 (dueCardLimit deckSize).

(** The deck after the backfill (lines 111-114), before the shuffle. *)
Definition composedDeck (cards : list loc) (deckSize : Z) : list loc :=
  let deck := quotaDeck cards deckSize in
  if Z.of_nat (length deck) <? deckSize then
    let remaining := filter (λ c, c ∉ deck) (sortedCards cards) in
    deck ++ Array_slice remaining 0 (deckSize - Z.of_nat (length deck))
  else deck.
End DeckSteps.

(** One day in milliseconds. *)
Definition msPerDay : Z := 24 * 60 * 60 * 1000.

(** ** Words of the specification, for comparison with the code *)

(** "clamp to [0,100]". *)
Definition clamp (x : Z) : Z := Z.max 0 (Z.min 100 x).

(** "if quality >= 3, confidence += (quality - 3) * 15, else
    confidence -= (3 - quality) * 20". *)
Definition spec_confidence_step (confidence quality : Z) : Z :=
  if decide (3 ≤ quality) then confidence + (quality - 3) * 15
  else confidence - (3 - quality) * 20.

(** "confidence>=90 → 7d; >=70 → 3d; >=50 → 1d; >=30 → 0.25d; else 0.042d". *)
Definition spec_base_interval (confidence : Z) (days : Q) : Prop :=
  (90 ≤ confidence ∧ days = 7%Q) ∨
  (70 ≤ confidence < 90 ∧ days = 3%Q) ∨
  (50 ≤ confidence < 70 ∧ days = 1%Q) ∨
  (30 ≤ confidence < 50 ∧ days = 0.25%Q) ∨
  (confidence < 30 ∧ days = 0.042%Q).

(** "if successRate > 0.8, multiply interval by 1.5; if < 0.5, multiply by
    0.5; otherwise unchanged", for a card reviewed before. *)
Definition spec_multiplier (reviewCount correctCount : Z) (factor : Q) : Prop :=
  let successRate := (inject_Z correctCount / inject_Z reviewCount)%Q in
  (reviewCount ≤ 0 ∧ factor = 1%Q) ∨
  (0 < reviewCount ∧ (0.8 < successRate)%Q ∧ factor = 1.5%Q) ∨
  (0 < reviewCount ∧ (successRate < 0.5)%Q ∧ factor = 0.5%Q) ∨
  (0 < reviewCount ∧ (0.5 <= successRate)%Q ∧ (successRate <= 0.8)%Q ∧ factor = 1%Q).

(** "Confidence update ... clamp to [0,100]", read on the stored
    confidence. *)
Definition confidence_from_stored (now : Date) (card : FlashCard) (quality : Z) : Prop :=
  Review.confidence (calculateNextReview now card quality)
  = clamp (spec_confidence_step (confidence card) quality).

(** "No duplicate card identifiers". *)
Definition distinct_ids (heap : store) (cards : list loc) : Prop :=
  NoDup ((λ c, id (heap c)) <$> cards).

(** "Sort pool ascending by priority". *)
Definition by_priority (now : Date) (heap : store) (a b : loc) : Prop :=
  (getCardPriority now (heap a) <= getCardPriority now (heap b))%Q.

(** A card in both the weak and the due partition. *)
Definition weak_and_due (now : Date) (heap : store) (c : loc) : Prop :=
  isWeak heap c ∧ isDue now heap c.

(** "The first min(3, deck.length) entries equal the first 3 entries of the
    priority-sorted filtered pool used for composition". *)
Definition top3_by_priority (now : Date) (heap : store) (random : random_source)
    (cards : list loc) (deckSize : Z) : Prop :=
  let deck := generateStudyDeck now heap random cards deckSize in
  take (3 `min` length deck) deck
  = take (3 `min` length deck) (sortedCards now heap cards).

(** "empty pool → empty Deck.  size <= 0 → empty Deck". *)
Definition empty_deck_on_edge (now : Date) (heap : store) (random : random_source)
    (cards : list loc) (deckSize : Z) : Prop :=
  cards = [] ∨ deckSize ≤ 0 → generateStudyDeck now heap random cards deckSize = [].

Definition set_confidence (card : FlashCard) (c : Z) : FlashCard :=
  {| id := id card; question := question card; answer := answer card;
     type := type card; difficulty := difficulty card; subject := subject card;
     chapter := chapter card; page := page card; imageUrl := imageUrl card;
     lastReviewed := lastReviewed card; reviewCount := reviewCount card;
     correctCount := correctCount card; confidence := c;
     nextReview := nextReview card; tags := tags card |}.

(** ** Sample cards *)

Definition sample_card (name : string) (difficulty reviewCount correctCount confidence : Z)
    (nextReview : option Date) : FlashCard :=
  {| id := name; question := "Q"; answer := "A"; type := definition;
     difficulty := difficulty; subject := chemistry; chapter := "1";
     page := None; imageUrl := None; lastReviewed := None;
     reviewCount := reviewCount; correctCount := correctCount;
     confidence := confidence; nextReview := nextReview; tags := Some [] |}.

Definition today : Date := 20000 * msPerDay.

(** The scoring example of the specification. *)
Definition cardE : FlashCard := sample_card "E" 1 4 2 50 None.
(** A new card as the card data ships it: nothing recorded, confidence 0. *)
Definition cardA : FlashCard := sample_card "A" 1 0 0 0 None.
(** A card never reviewed, with residual field values. *)
Definition cardN : FlashCard := sample_card "N" 4 0 0 35 (Some (today - 3 * msPerDay)).
(** A card whose confidence has dropped to 0. *)
Definition cardZ : FlashCard := sample_card "Z" 1 3 0 0 (Some (today - msPerDay)).

(** A pool in the style of the example scenario of the specification:
    [0] and [3] are new cards; [1] was answered wrong four times out of
    five, has confidence 20 and was due yesterday; [2] is well known and
    due next week; [4], [5] and [6] are hard cards, well known and due
    tomorrow. *)
Definition pool_store : store := λ c,
  match c with
  | 0%nat => cardA
  | 1%nat => sample_card "B" 1 5 1 20 (Some (today - msPerDay))
  | 2%nat => sample_card "C" 1 10 9 95 (Some (today + 7 * msPerDay))
  | 3%nat => sample_card "D" 2 0 0 0 None
  | 4%nat => sample_card "H1" 5 10 9 95 (Some (today + msPerDay))
  | 5%nat => sample_card "H2" 5 10 9 95 (Some (today + msPerDay))
  | 6%nat => sample_card "H3" 5 10 9 95 (Some (today + msPerDay))
  | _ => sample_card "X" 1 0 0 0 None
  end.

(** A random source that always answers one half. *)
Definition sample_random : random_source := λ _, 0.5%Q.

(** * The rest of the engine and its callers *)

(** ** Statistics (learning-algorithm.ts, [calculateStats]) *)

Module TagStat.
Record t := { total : Z; weak : Z }.
End TagStat.

Module Stats.
Record t := {
  mastered : Z;
  learning : Z;
  new : Z;
  averageConfidence : Q;
  weakestTopics : list string
}.
End Stats.

(** A plain object used as a dictionary: its own properties, in the order
    in which they were created. *)
Definition Obj (V : Type) := list (string * V).

(** The properties every plain object inherits from [Object.prototype];
    all of them are truthy. *)
Definition Object_prototype_keys : list string :=
  ["constructor"; "hasOwnProperty"; "isPrototypeOf"; "propertyIsEnumerable";
   "toLocaleString"; "toString"; "valueOf"; "__proto__";
   "__defineGetter__"; "__defineSetter__"; "__lookupGetter__"; "__lookupSetter__"].

Inductive Property (V : Type) := Own (v : V) | Inherited | Undefined.
Arguments Own {V} v.
Arguments Inherited {V}.
Arguments Undefined {V}.

Fixpoint own_get {V} (o : Obj V) (key : string) : option V :=
  match o with
  | [] => None
  | (k, v) :: o' => if String.eqb k key then Some v else own_get o' key
  end.

(** [o[key]] read: an own property, else one found on the prototype. *)
Definition obj_get {V} (o : Obj V) (key : string) : Property V :=
  match own_get o key with
  | Some v => Own v
  | None => if bool_decide (key ∈ Object_prototype_keys) then Inherited else Undefined
  end.

(** [o[key] = v], and the update in place of the value of an own property:
    an existing property keeps its position, a new one goes last. *)
Fixpoint obj_set {V} (o : Obj V) (key : string) (v : V) : Obj V :=
  match o with
  | [] => [(key, v)]
  | (k, v') :: o' =>
      if String.eqb k key then (k, v) :: o' else (k, v') :: obj_set o' key v
  end.

(** An array index is the canonical decimal form of an integer below
    2^32 - 1. *)
Definition digit_of (a : Ascii.ascii) : option N :=
  let n := Ascii.N_of_ascii a in
  if ((48 <=? n) && (n <=? 57))%N then Some (n - 48)%N else None.

Fixpoint parse_digits (s : string) (acc : N) : option N :=
  match s with
  | EmptyString => Some acc
  | String a s' =>
      match digit_of a with
      | Some d => parse_digits s' (acc * 10 + d)%N
      | None => None
      end
  end.

Definition array_index (s : string) : option N :=
  match s with
  | EmptyString => None
  | String a s' =>
      if (Ascii.N_of_ascii a =? 48)%N && negb (String.eqb s' EmptyString) then None
      else match parse_digits s 0 with
           | Some n => if (n <=? 4294967294)%N then Some n else None
           | None => None
           end
  end.

(** [Object.entries]: the array indices in ascending order, then the other
    keys in creation order. *)
Definition Object_entries {V} (o : Obj V) : list (string * V) :=
  let indexed := filter (λ kv, is_Some (array_index kv.1)) o in
  let named := filter (λ kv, ¬ is_Some (array_index kv.1)) o in
  Array_sort
    (λ a b, inject_Z (Z.of_N (default 0%N (array_index a.1)))
            - inject_Z (Z.of_N (default 0%N (array_index b.1))))%Q indexed
  ++ named.

(** The body of [card.tags?.forEach(tag => ...)] (lines 146-152).  When the
    tag names an inherited property, no own property is created and the
    counters incremented are those of the inherited object. *)
Definition countTag (card : FlashCard) (tagStats : Obj TagStat.t) (tag : string)
    : Obj TagStat.t :=
  let tagStats :=
    match obj_get tagStats tag with
    | Undefined => obj_set tagStats tag {| TagStat.total := 0; TagStat.weak := 0 |}
    | _ => tagStats
    end in
  match obj_get tagStats tag with
  | Own stats =>
      let stats := {| TagStat.total := TagStat.total stats + 1;
                      TagStat.weak := TagStat.weak stats |} in
      let stats :=
        if confidence card <? 50
        then {| TagStat.total := TagStat.total stats;
                TagStat.weak := TagStat.weak stats + 1 |}
        else stats in
      obj_set tagStats tag stats
  | _ => tagStats
  end.

(** The body of [cards.forEach(card => ...)] (lines 144-154). *)
Definition countCard (tagStats : Obj TagStat.t) (card : FlashCard) : Obj TagStat.t :=
  match tags card with
  | Some tags => fold_left (countTag card) tags tagStats
  | None => tagStats
  end.

(** [stats.weak / stats.total]. *)
Definition weakFraction (stats : TagStat.t) : Q :=
  (inject_Z (TagStat.weak stats) / inject_Z (TagStat.total stats))%Q.

Definition calculateStats (cards : list FlashCard) : Stats.t :=
  let mastered := Z.of_nat (length (filter (λ c, 80 <=? confidence c) cards)) in
  let learning :=
    Z.of_nat (length (filter (λ c, (30 <=? confidence c) && (confidence c <? 80)) cards)) in
  let newCards := Z.of_nat (length (filter (λ c, reviewCount c =? 0) cards)) in
  let totalConfidence := fold_left (λ sum c, sum + confidence c) cards 0 in
  let averageConfidence :=
    if 0 <? Z.of_nat (length cards)
    then (inject_Z totalConfidence / inject_Z (Z.of_nat (length cards)))%Q
    else 0%Q in
  let tagStats : Obj TagStat.t := fold_left countCard cards [] in
  let weakestTopics :=
    fst <$>
      Array_slice
        (Array_sort (λ a b, weakFraction b.2 - weakFraction a.2)%Q
           (filter (λ e, Qgtb (weakFraction e.2) 0.5) (Object_entries tagStats)))
        0 3 in
  {| Stats.mastered := mastered; Stats.learning := learning; Stats.new := newCards;
     Stats.averageConfidence := averageConfidence; Stats.weakestTopics := weakestTopics |}.

(** The dictionary built by lines 143-154. *)
Definition tagStatsOf (cards : list FlashCard) : Obj TagStat.t :=
  fold_left countCard cards [].

(** ** The study page (app/study/page.tsx) *)

Module StudyMode.
Inductive t := normal | weak | quick | new.
End StudyMode.

Module SessionStats.
Record t := { studied : Z; correct : Z; streak : Z; maxStreak : Z }.
End SessionStats.

(** One entry of the array kept under the key [uchuichi-progress].  The
    JSON text is taken as the array it encodes: integers are written
    exactly, and a [Date] is written as its ISO string, which [new Date]
    reads back to the same time value. *)
Module Progress.
Record t := {
  id : string;
  reviewCount : Z;
  correctCount : Z;
  confidence : Z;
  lastReviewed : option Date;
  nextReview : option Date
}.
End Progress.

(** [localStorage.getItem('uchuichi-progress')]: nothing, or the array.  In
    this repository the key is written by [saveProgress] only, and the
    storage is modelled as what [saveProgress] can have written; text put
    under the key by other means is outside the model. *)
Definition Storage := option (list Progress.t).

(** [generateNewDeck] (lines 59-96): the deck, the index and the session
    statistics it sets.  The cards are references, as the deck builder
    takes them; the chapter selector ['all'] stands for no selection. *)
Definition generateNewDeck (now : Date) (heap : store) (random : random_source)
    (selectedChapter : string) (studyMode : StudyMode.t) (deckSize : Z)
    (prev : SessionStats.t) (cardsToUse : list loc)
    : list loc * nat * SessionStats.t :=
  let filteredCards := cardsToUse in
  let filteredCards :=
    if bool_decide (selectedChapter ≠ "all")
    then filter (λ card, chapter (heap card) = selectedChapter) cardsToUse
    else filteredCards in
  let filteredCards :=
    match studyMode with
    | StudyMode.weak =>
        filter (λ card,
                  (reviewCount (heap card) =? 0)
                  || ((0 <? reviewCount (heap card))
                      && Qltb (inject_Z (correctCount (heap card))
                               / inject_Z (reviewCount (heap card))) 0.5))
               filteredCards
    | StudyMode.new => filter (λ card, reviewCount (heap card) =? 0) filteredCards
    | StudyMode.quick =>
        Array_sort
          (λ a b,
             let aScore := or_default (confidence (heap a)) 0 in
             let bScore := or_default (confidence (heap b)) 0 in
             (inject_Z aScore - inject_Z bScore)%Q)
          filteredCards
    | StudyMode.normal => filteredCards
    end in
  let actualDeckSize :=
    match studyMode with StudyMode.quick => 10 | _ => deckSize end in
  let deck := generateStudyDeck now heap random filteredCards actualDeckSize in
  (deck, 0%nat,
   {| SessionStats.studied := 0; SessionStats.correct := 0; SessionStats.streak := 0;
      SessionStats.maxStreak := SessionStats.maxStreak prev |}).

(** The state that a render of the page holds and that its closures read
    (lines 12-24).  The arguments [selectedChapter], [studyMode] and
    [deckSize] of [generateNewDeck] above are, in the source, the values of
    the render whose closure runs. *)
Module Page.
Record Render := {
  cards : list loc;
  selectedChapter : string;
  deckSize : Z;
  studyMode : StudyMode.t
}.
End Page.

(** The first render: the initial values of [useState]. *)
Definition firstRender : Page.Render :=
  {| Page.cards := []; Page.selectedChapter := "all";
     Page.deckSize := 20; Page.studyMode := StudyMode.normal |}.

(** [generateNewDeck] as the closure of the render [r]; [allCards || cards]
    takes the argument when one is passed, an array being truthy. *)
Definition generateNewDeckIn (now : Date) (heap : store) (random : random_source)
    (r : Page.Render) (allCards : option (list loc)) (prev : SessionStats.t)
    : list loc * nat * SessionStats.t :=
  let cardsToUse := match allCards with Some l => l | None => Page.cards r end in
  generateNewDeck now heap random (Page.selectedChapter r) (Page.studyMode r)
    (Page.deckSize r) prev cardsToUse.

(** The value of [mode] in the URL, when it is one the page accepts
    (line 32). *)
Definition urlMode (mode : option string) : option StudyMode.t :=
  match mode with
  | Some m =>
      if String.eqb m "weak" then Some StudyMode.weak
      else if String.eqb m "quick" then Some StudyMode.quick
      else if String.eqb m "new" then Some StudyMode.new
      else None
  | None => None
  end.

(** The mount effect (lines 26-39) with the [loadCards] it starts (lines
    41-57): the state of the page once the cards are loaded, and what
    [generateNewDeck] set.  Both functions are closures of the first
    render, so [generateNewDeck] reads its mode and size, whatever
    [setStudyMode] and [setDeckSize] have been given meanwhile.  (The
    effect of lines 172-177 runs while the cards are still empty and does
    nothing.) *)
Definition mount (now : Date) (heap : store) (random : random_source)
    (mode : option string) (loadedCards : list loc) (prev : SessionStats.t)
    : Page.Render * (list loc * nat * SessionStats.t) :=
  let studyMode :=
    match urlMode mode with Some m => m | None => Page.studyMode firstRender end in
  let deckSize :=
    match urlMode mode with
    | Some StudyMode.quick => 10
    | _ => Page.deckSize firstRender
    end in
  ({| Page.cards := loadedCards;
      Page.selectedChapter := Page.selectedChapter firstRender;
      Page.deckSize := deckSize; Page.studyMode := studyMode |},
   generateNewDeckIn now heap random firstRender (Some loadedCards) prev).

(** [saveProgress] (lines 138-148): the new content of the storage. *)
Definition saveProgress (updatedCards : list FlashCard) : Storage :=
  let progress :=
    (λ card,
       {| Progress.id := id card;
          Progress.reviewCount := reviewCount card;
          Progress.correctCount := correctCount card;
          Progress.confidence := confidence card;
          Progress.lastReviewed := lastReviewed card;
          Progress.nextReview := nextReview card |}) <$> updatedCards in
  Some progress.

(** [loadProgress] (lines 150-170): the cards it sets and returns. *)
Definition loadProgress (saved : Storage) (cards : list FlashCard) : list FlashCard :=
  match saved with
  | Some progress =>
      let updatedCards :=
        (λ card,
           match List.find (λ p, String.eqb (Progress.id p) (id card)) progress with
           | Some savedCard =>
               {| id := Progress.id savedCard;
                  question := question card; answer := answer card; type := type card;
                  difficulty := difficulty card; subject := subject card;
                  chapter := chapter card; page := page card; imageUrl := imageUrl card;
                  lastReviewed := Progress.lastReviewed savedCard;
                  reviewCount := Progress.reviewCount savedCard;
                  correctCount := Progress.correctCount savedCard;
                  confidence := Progress.confidence savedCard;
                  nextReview := Progress.nextReview savedCard;
                  tags := tags card |}
           | None => card
           end) <$> cards in
      updatedCards
  | None => cards
  end.

(** The state of the page that [handleSwipe] reads and writes.  The handler
    compares cards by identifier only, so cards are records here. *)
Module Study.
Record State := {
  cards : list FlashCard;
  currentDeck : list FlashCard;
  currentIndex : nat;
  sessionStats : SessionStats.t;
  localStorage : Storage
}.
End Study.

(** [handleSwipe] (lines 98-136), up to the timer it starts; the direction
    is not read.  The two calls of [new Date()] are taken to read the same
    instant. *)
Definition handleSwipe (now : Date) (quality : Z) (st : Study.State) : Study.State :=
  match Study.currentDeck st !! Study.currentIndex st with
  | None => st
  | Some currentCard =>
      let result := calculateNextReview now currentCard quality in
      let updatedCard :=
        {| id := id currentCard;
           question := question currentCard; answer := answer currentCard;
           type := type currentCard; difficulty := difficulty currentCard;
           subject := subject currentCard; chapter := chapter currentCard;
           page := page currentCard; imageUrl := imageUrl currentCard;
           lastReviewed := Some now;
           reviewCount := reviewCount currentCard + 1;
           correctCount :=
             if 3 <=? quality then correctCount currentCard + 1
             else correctCount currentCard;
           confidence := Review.confidence result;
           nextReview := Some (Review.nextReview result);
           tags := tags currentCard |} in
      let updatedCards :=
        (λ card, if String.eqb (id card) (id updatedCard) then updatedCard else card)
          <$> Study.cards st in
      let isCorrect := 3 <=? quality in
      let prev := Study.sessionStats st in
      {| Study.cards := updatedCards;
         Study.currentDeck := Study.currentDeck st;
         Study.currentIndex := Study.currentIndex st;
         Study.sessionStats :=
           {| SessionStats.studied := SessionStats.studied prev + 1;
              SessionStats.correct :=
                if isCorrect then SessionStats.correct prev + 1
                else SessionStats.correct prev;
              SessionStats.streak :=
                if isCorrect then SessionStats.streak prev + 1 else 0;
              SessionStats.maxStreak :=
                if isCorrect
                then Z.max (SessionStats.maxStreak prev) (SessionStats.streak prev + 1)
                else SessionStats.maxStreak prev |};
         Study.localStorage := saveProgress updatedCards |}
  end.

(** The timer callback [setCurrentIndex(prev => prev + 1)]. *)
Definition nextCard (st : Study.State) : Study.State :=
  {| Study.cards := Study.cards st;
     Study.currentDeck := Study.currentDeck st;
     Study.currentIndex := (Study.currentIndex st + 1)%nat;
     Study.sessionStats := Study.sessionStats st;
     Study.localStorage := Study.localStorage st |}.

(** ** The card component (components/SimpleCard.tsx, [handleDragEnd]) *)

Module Direction.
Inductive t := left | right | up.
End Direction.

Module Drag.
Record t := {
  isDragging : bool;
  exitX : option Z;
  exitY : option Z;
  onSwipe : option (Direction.t * Z)
}.
End Drag.

(** [handleDragEnd] (lines 91-103): what the handler sets ([None] where it
    leaves a value alone) and the call of [onSwipe] it makes, if any, for
    the offset of a drag. *)
Definition handleDragEnd (offset_x offset_y : Q) : Drag.t :=
  let threshold : Q := 100%Q in
  if Qgtb (Qabs offset_x) threshold then
    {| Drag.isDragging := false;
       Drag.exitX := Some (if Qgtb offset_x 0 then 200 else -200);
       Drag.exitY := None;
       Drag.onSwipe :=
         let quality := if Qgtb offset_x 0 then 4 else 1 in
         Some (if Qgtb offset_x 0 then Direction.right else Direction.left, quality) |}
  else if Qltb offset_y (- threshold) then
    {| Drag.isDragging := false; Drag.exitX := None; Drag.exitY := Some (-200);
       Drag.onSwipe := Some (Direction.up, 5) |}
  else {| Drag.isDragging := false; Drag.exitX := None; Drag.exitY := None;
          Drag.onSwipe := None |}.

(** Renders for the examples: the five cards, all chapters, size 50. *)
Definition sample_render (mode : StudyMode.t) : Page.Render :=
  {| Page.cards := [0; 1; 2; 3; 4]%nat; Page.selectedChapter := "all";
     Page.deckSize := 50; Page.studyMode := mode |}.

Definition no_stats : SessionStats.t :=
  {| SessionStats.studied := 0; SessionStats.correct := 0;
     SessionStats.streak := 0; SessionStats.maxStreak := 0 |}.

(** What the mode filter of [generateNewDeck] lets through. *)
Definition mode_admits (heap : store) (studyMode : StudyMode.t) (c : loc) : Prop :=
  match studyMode with
  | StudyMode.new => reviewCount (heap c) = 0
  | StudyMode.weak =>
      reviewCount (heap c) = 0
      ∨ (0 < reviewCount (heap c) ∧ 2 * correctCount (heap c) < reviewCount (heap c))
  | _ => True
  end.

(** The review state of a card as the data model describes it. *)
Definition card_ok (card : FlashCard) : Prop :=
  0 ≤ correctCount card ≤ reviewCount card ∧ 0 ≤ confidence card ≤ 100.

(** The session counters are consistent. *)
Definition stats_ok (s : SessionStats.t) : Prop :=
  0 ≤ SessionStats.streak s ≤ SessionStats.maxStreak s ∧
  SessionStats.streak s ≤ SessionStats.correct s ≤ SessionStats.studied s.

(** Two cards that differ in their review state at most. *)
Definition same_content (a b : FlashCard) : Prop :=
  id a = id b ∧ question a = question b ∧ answer a = answer b ∧ type a = type b ∧
  difficulty a = difficulty b ∧ subject a = subject b ∧ chapter a = chapter b ∧
  page a = page b ∧ imageUrl a = imageUrl b ∧ tags a = tags b.

(** One answer together with the timer it starts, run to its end (lines
    98-136): past the end of the deck [handleSwipe] returns at line 99 and
    starts no timer, so the index stays. *)
Definition answerCard (now : Date) (quality : Z) (st : Study.State) : Study.State :=
  match Study.currentDeck st !! Study.currentIndex st with
  | None => handleSwipe now quality st
  | Some _ => nextCard (handleSwipe now quality st)
  end.

(** A session: each answer is handled on the state left by the one before,
    its timer included. *)
Definition session (answers : list (Date * Z)) (st : Study.State) : Study.State :=
  fold_left (λ st answer, answerCard answer.1 answer.2 st) answers st.

(** A page state for the examples: the deck is the two cards [cardE] and
    [cardZ] of the page's cards. *)
Definition sample_state : Study.State :=
  {| Study.cards := [cardA; cardE; cardZ];
     Study.currentDeck := [cardE; cardZ];
     Study.currentIndex := 0;
     Study.sessionStats :=
       {| SessionStats.studied := 0; SessionStats.correct := 0;
          SessionStats.streak := 0; SessionStats.maxStreak := 2 |};
     Study.localStorage := None |}.

(** The card carries the tag. *)
Definition has_tag (card : FlashCard) (tag : string) : Prop :=
  ∃ l, tags card = Some l ∧ tag ∈ l.

(** An entry of the tag dictionary built from [cards] is sound: it counts at
    least one card, no more weak cards than cards, under a tag that some
    card carries, and a weak card carries it if one was counted. *)
Definition entry_ok (cards : list FlashCard) (entry : string * TagStat.t) : Prop :=
  1 ≤ TagStat.total (entry.2) ∧
  0 ≤ TagStat.weak (entry.2) ∧ TagStat.weak (entry.2) ≤ TagStat.total (entry.2) ∧
  ¬ (entry.1 ∈ Object_prototype_keys) ∧
  (∃ card, card ∈ cards ∧ has_tag card (entry.1)) ∧
  (0 < TagStat.weak (entry.2) →
   ∃ card, card ∈ cards ∧ has_tag card (entry.1) ∧ confidence card < 50).

(** Cards for the statistics examples. *)
Definition tagged (name : string) (conf : Z) (l : option (list string)) : FlashCard :=
  {| id := name; question := "Q"; answer := "A"; type := definition;
     difficulty := 1; subject := chemistry; chapter := "1";
     page := None; imageUrl := None; lastReviewed := None;
     reviewCount := 1; correctCount := 0;
     confidence := conf; nextReview := None; tags := l |}.

Definition tagged_pool : list FlashCard :=
  [tagged "a" 10 (Some ["x"; "10"; "2"; "toString"]);
   tagged "b" 90 (Some ["x"; "y"]);
   tagged "c" 20 None;
   tagged "d" 40 (Some ["y"; "y"])].

(** * Properties of the scorer *)

Lemma Zleb_cases (a b : Z) : (a <=? b) = true ∧ a ≤ b ∨ (a <=? b) = false ∧ b < a.
Proof. destruct (Z.leb_spec a b); [left | right]; done. Qed.

Lemma Qgtb_true (x y : Q) : Qgtb x y = true ↔ (y < x)%Q.
Proof.
  unfold Qgtb. rewrite negb_true_iff, <- not_true_iff_false, Qle_bool_iff.
  split; [apply Qnot_le_lt | apply Qlt_not_le].
Qed.

Lemma Qgtb_false (x y : Q) : Qgtb x y = false ↔ (x <= y)%Q.
Proof. unfold Qgtb. by rewrite negb_false_iff, Qle_bool_iff. Qed.

Lemma Qltb_true (x y : Q) : Qltb x y = true ↔ (x < y)%Q.
Proof. apply Qgtb_true. Qed.

Lemma Qltb_false (x y : Q) : Qltb x y = false ↔ (y <= x)%Q.
Proof. apply Qgtb_false. Qed.

Lemma ToIntegerOrInfinity_integer (q : Q) (m : Z) :
  (q == inject_Z m)%Q → ToIntegerOrInfinity q = m.
Proof.
  unfold Qeq, ToIntegerOrInfinity. cbn [Qnum Qden inject_Z]. intros H.
  rewrite Z.mul_1_r in H. rewrite H. by apply Z.quot_mul.
Qed.

Lemma baseInterval_spec (c : Z) : spec_base_interval c (baseInterval c).
Proof.
  unfold baseInterval, spec_base_interval.
  destruct (Zleb_cases 90 c) as [[-> ?]|[-> ?]]; [by left|].
  destruct (Zleb_cases 70 c) as [[-> ?]|[-> ?]]; [right; left; split; [lia|done]|].
  destruct (Zleb_cases 50 c) as [[-> ?]|[-> ?]]; [do 2 right; left; split; [lia|done]|].
  destruct (Zleb_cases 30 c) as [[-> ?]|[-> ?]]; [do 3 right; left; split; [lia|done]|].
  do 4 right. split; [lia|done].
Qed.

(** The adjusted interval is the base interval times the multiplier the
    specification names. *)
Lemma adjustInterval_spec (card : FlashCard) (interval : Q) :
  ∃ factor, spec_multiplier (reviewCount card) (correctCount card) factor ∧
            (adjustInterval card interval == interval * factor)%Q.
Proof.
  unfold adjustInterval, spec_multiplier.
  destruct (Z.ltb_spec 0 (reviewCount card)) as [Hrc|Hrc].
  - destruct (Qgtb _ 0.8) eqn:Hhi.
    { exists 1.5%Q. split; [|reflexivity]. right; left. by rewrite Qgtb_true in Hhi. }
    destruct (Qltb _ 0.5) eqn:Hlo.
    { exists 0.5%Q. split; [|reflexivity]. do 2 right; left. by rewrite Qltb_true in Hlo. }
    exists 1%Q. split; [|by rewrite Qmult_1_r].
    do 3 right. rewrite Qgtb_false in Hhi. by rewrite Qltb_false in Hlo.
  - exists 1%Q. split; [|by rewrite Qmult_1_r]. left. split; [lia | done].
Qed.

Lemma calculateNextReview_steps (now : Date) (card : FlashCard) (quality : Z) :
  calculateNextReview now card quality
  = {| Review.nextReview :=
         new_Date (inject_Z now
                   + adjustInterval card (baseInterval (confidenceUpdate card quality))
                     * 24 * 60 * 60 * 1000)%Q;
       Review.confidence := confidenceUpdate card quality |}.
Proof. reflexivity. Qed.

(** Every interval the scorer can choose is a whole, positive number of
    milliseconds. *)
Lemma interval_milliseconds (c rc cc : Z) (days factor : Q) :
  spec_base_interval c days → spec_multiplier rc cc factor →
  ∃ m : Z, 0 < m ∧ (days * factor * inject_Z msPerDay == inject_Z m)%Q.
Proof.
  intros Hd Hf.
  exists (ToIntegerOrInfinity (days * factor * inject_Z msPerDay)).
  destruct Hd as [[_ ->]|[[_ ->]|[[_ ->]|[[_ ->]|[_ ->]]]]];
    destruct Hf as [[_ ->]|[(_ & _ & ->)|[(_ & _ & ->)|(_ & _ & _ & ->)]]];
    split; reflexivity.
Qed.

(** The time handed to [new Date] is already an integer: nothing is lost
    by the truncation. *)
Lemma calculateNextReview_ms (now : Date) (card : FlashCard) (quality : Z) :
  ∃ (days factor : Q) (m : Z),
    spec_base_interval (Review.confidence (calculateNextReview now card quality)) days ∧
    spec_multiplier (reviewCount card) (correctCount card) factor ∧
    (days * factor * inject_Z msPerDay == inject_Z m)%Q ∧ 0 < m ∧
    Review.nextReview (calculateNextReview now card quality) = now + m.
Proof.
  pose proof (baseInterval_spec (confidenceUpdate card quality)) as Hd.
  destruct (adjustInterval_spec card (baseInterval (confidenceUpdate card quality)))
    as (factor & Hf & Hadj).
  destruct (interval_milliseconds _ _ _ _ _ Hd Hf) as (m & Hm & Hms).
  exists (baseInterval (confidenceUpdate card quality)), factor, m.
  repeat split; try done.
  rewrite calculateNextReview_steps. cbn [Review.nextReview]. unfold new_Date.
  apply ToIntegerOrInfinity_integer.
  rewrite Hadj, inject_Z_plus, <- Hms.
  change (inject_Z msPerDay) with (24 * 60 * 60 * 1000)%Q. ring.
Qed.

(** An integer below 2^53 is a finite double. *)
Lemma digits2_pos_lower (q : positive) : 2 ^ (Z.pos (digits2_pos q) - 1) ≤ Z.pos q.
Proof.
  induction q as [q IH|q IH|]; cbn [digits2_pos]; [| |done].
  - rewrite Pos2Z.inj_succ.
    replace (Z.succ (Z.pos (digits2_pos q)) - 1) with (Z.succ (Z.pos (digits2_pos q) - 1))
      by lia.
    rewrite Z.pow_succ_r by lia. lia.
  - rewrite Pos2Z.inj_succ.
    replace (Z.succ (Z.pos (digits2_pos q)) - 1) with (Z.succ (Z.pos (digits2_pos q) - 1))
      by lia.
    rewrite Z.pow_succ_r by lia. lia.
Qed.

Lemma digits2_pos_le_53 (q : positive) : Z.pos q < 2 ^ 53 → Z.pos (digits2_pos q) ≤ 53.
Proof.
  intros Hq. pose proof (digits2_pos_lower q) as Hlow.
  destruct (Z.le_gt_cases (Z.pos (digits2_pos q)) 53) as [|Hgt]; [done|].
  assert (2 ^ 53 ≤ 2 ^ (Z.pos (digits2_pos q) - 1)) by (apply Z.pow_le_mono_r; lia).
  lia.
Qed.

Lemma digits2_pos_iter (q d : positive) :
  digits2_pos (Pos.iter xO q d) = (digits2_pos q + d)%positive.
Proof.
  induction d as [|d IH] using Pos.peano_ind.
  - cbn. lia.
  - rewrite Pos.iter_succ. cbn [digits2_pos]. rewrite IH. lia.
Qed.

Lemma double_of_Z_finite (s : bool) (q : positive) :
  Z.pos q < 2 ^ 53 → ∃ m e, binary_round 53 1024 s q 0 = S754_finite s m e.
Proof.
  intros Hq. pose proof (digits2_pos_le_53 q Hq) as HD.
  unfold binary_round.
  assert (fexp 53 1024 (Z.pos (digits2_pos q) + 0) = Z.pos (digits2_pos q) - 53) as ->.
  { unfold fexp, emin. lia. }
  assert (∃ mz ez, shl_align q 0 (Z.pos (digits2_pos q) - 53) = (mz, ez) ∧
                   Z.pos (digits2_pos mz) + ez = Z.pos (digits2_pos q) ∧
                   ez = Z.pos (digits2_pos q) - 53)
    as (mz & ez & -> & Hdig & Hez).
  { unfold shl_align. destruct (Z.pos (digits2_pos q) - 53 - 0) as [|d|d] eqn:Hd.
    - exists q, 0. repeat split; lia.
    - lia.
    - exists (Pos.iter xO q d), (Z.pos (digits2_pos q) - 53).
      rewrite digits2_pos_iter. repeat split; lia. }
  unfold binary_round_aux, shr_fexp. cbn [Zdigits2 shr_record_of_loc].
  rewrite Hdig.
  assert (fexp 53 1024 (Z.pos (digits2_pos q)) - ez = 0) as ->
    by (unfold fexp, emin; lia).
  cbn [shr shr_m loc_of_shr_record round_nearest_even Zdigits2 shr_record_of_loc].
  rewrite Hdig.
  assert (fexp 53 1024 (Z.pos (digits2_pos q)) - ez = 0) as ->
    by (unfold fexp, emin; lia).
  cbn [shr shr_m].
  destruct (Z.leb_spec ez (1024 - 53)); [|lia]. eauto.
Qed.

(** A time value that is a double, less itself, is +0, and +0 days is +0. *)
Lemma double_sub_diag (z : Z) :
  Z.abs z < 2 ^ 53 →
  double_div (double_sub (double_of_Z z) (double_of_Z z)) (double_of_Z msPerDay)
  = S754_zero false.
Proof.
  intros Hz.
  assert (double_sub (double_of_Z z) (double_of_Z z) = S754_zero false) as ->; [|done].
  destruct z as [|q|q]; [done| |].
  - destruct (double_of_Z_finite false q ltac:(lia)) as (m & e & Hm).
    unfold double_of_Z, binary_normalize. rewrite Hm.
    unfold double_sub, SFsub. by rewrite Z.sub_diag.
  - destruct (double_of_Z_finite true q ltac:(lia)) as (m & e & Hm).
    unfold double_of_Z, binary_normalize. rewrite Hm.
    unfold double_sub, SFsub. by rewrite Z.sub_diag.
Qed.

(** C2.  [getCardPriority] returns 0 for a card never reviewed, whatever
    its other fields; for a reviewed card it returns, in the double
    arithmetic of the source, minus the overdue days when [nextReview] is in
    the past, the days until [nextReview] when it is not (0 days at the very
    instant), 0 when [nextReview] is unset, in each case minus
    [(100 - confidence) / 50] and then minus [difficulty * 2]. *)
Theorem getCardPriority_returns (now : Date) (card : FlashCard) :
  (reviewCount card = 0 → getCardPriority_double now card = S754_zero false) ∧
  (reviewCount card ≠ 0 →
   let days (from to : Date) :=
     double_div (double_sub (double_of_Z to) (double_of_Z from)) (double_of_Z msPerDay) in
   let less_penalties (base : double) :=
     double_sub
       (double_sub base
          (double_div (double_sub (double_of_Z 100) (double_of_Z (confidence card)))
                      (double_of_Z 50)))
       (double_mul (double_of_Z (difficulty card)) (double_of_Z 2)) in
   (∀ nr, nextReview card = Some nr → nr < now →
      getCardPriority_double now card = less_penalties (double_opp (days nr now))) ∧
   (∀ nr, nextReview card = Some nr → now ≤ nr →
      getCardPriority_double now card = less_penalties (days now nr)) ∧
   (∀ nr, nextReview card = Some nr → nr = now → Z.abs now < 2 ^ 53 →
      getCardPriority_double now card = less_penalties (S754_zero false)) ∧
   (nextReview card = None →
      getCardPriority_double now card = less_penalties (S754_zero false))).
Proof.
  unfold getCardPriority_double. split.
  - intros ->. done.
  - intros Hrc. apply Z.eqb_neq in Hrc. rewrite Hrc. cbv zeta.
    change double_msPerDay with (double_of_Z msPerDay).
    split; [|split; [|split]].
    + intros nr -> Hlt. apply Z.ltb_lt in Hlt. by rewrite Hlt.
    + intros nr -> Hle. destruct (Z.ltb_spec nr now) as [?|_]; [lia|]. done.
    + intros nr -> -> Hnow. rewrite Z.ltb_irrefl.
      by rewrite double_sub_diag.
    + by intros ->.
Qed.

Lemma getCardPriority_returns_witness :
  getCardPriority_double today cardN = S754_zero false ∧
  getCardPriority_double today (sample_card "V" 1 1 0 35 (Some (today - 8640000)))
  = S754_finite true 7656119366529844 (-51).
Proof.
  split.
  - apply (proj1 (getCardPriority_returns today cardN)). reflexivity.
  - rewrite (proj1 (proj2 (getCardPriority_returns today
                             (sample_card "V" 1 1 0 35 (Some (today - 8640000))))
                             ltac:(discriminate))
               (today - 8640000) eq_refl ltac:(lia)).
    reflexivity.
Defined.

(** The same card in the two models: the double returned is
    -3.4000000000000004 (7656119366529844 * 2^-51), the exact value of the
    formula is -17/5. *)
Example getCardPriority_double_sample :
  getCardPriority_double today (sample_card "V" 1 1 0 35 (Some (today - 8640000)))
  = S754_finite true 7656119366529844 (-51) ∧
  (getCardPriority today (sample_card "V" 1 1 0 35 (Some (today - 8640000)%Z)) == -17 # 5)%Q.
Proof. split; reflexivity. Qed.

(** C3, counterexample.  A new card is stored with confidence 0; answered
    with quality 4 it comes back with confidence 65, not 15. *)
Lemma confidence_from_stored_fails :
  0 ≤ confidence cardA ≤ 100 ∧ 0 ≤ 4 ≤ 5 ∧
  Review.confidence (calculateNextReview today cardA 4) = 65 ∧
  clamp (spec_confidence_step (confidence cardA) 4) = 15 ∧
  ¬ confidence_from_stored today cardA 4.
Proof. repeat split; try done. Qed.

(** C3, amended.  For a card whose stored confidence lies in [0,100] and a
    quality in [0,5], the returned confidence is the current confidence,
    with a stored 0 replaced by 50, plus [(quality - 3) * 15] when
    [quality >= 3] or minus [(3 - quality) * 20] otherwise, clamped to
    [0,100]; hence it lies in [0,100]. *)
Theorem calculateNextReview_confidence (now : Date) (card : FlashCard) (quality : Z) :
  0 ≤ confidence card ≤ 100 → 0 ≤ quality ≤ 5 →
  let current := if decide (confidence card = 0) then 50 else confidence card in
  Review.confidence (calculateNextReview now card quality)
    = clamp (spec_confidence_step current quality) ∧
  0 ≤ Review.confidence (calculateNextReview now card quality) ≤ 100.
Proof.
  intros Hc Hq. rewrite calculateNextReview_steps. cbn [Review.confidence].
  unfold confidenceUpdate, or_default, clamp, spec_confidence_step.
  destruct (Z.eqb_spec (confidence card) 0); case_decide; try done;
    destruct (Z.leb_spec 3 quality); case_decide; lia.
Qed.

Lemma calculateNextReview_confidence_witness :
  Review.confidence (calculateNextReview today cardE 4) = 65 ∧
  0 ≤ Review.confidence (calculateNextReview today cardE 4) ≤ 100.
Proof. apply (calculateNextReview_confidence today cardE 4); done. Defined.

(** C4.  [nextReview] is [now] plus the interval in days: the base interval
    is chosen from the updated confidence by the thresholds 90, 70, 50 and
    30, and is multiplied by 1.5 when the success rate before this
    presentation is above 0.8, by 0.5 when it is below 0.5, and left alone
    otherwise, in particular at exactly 0.8 and exactly 0.5, and for a card
    never reviewed. *)
Theorem calculateNextReview_schedule (now : Date) (card : FlashCard) (quality : Z) :
  let result := calculateNextReview now card quality in
  let successRate := (inject_Z (correctCount card) / inject_Z (reviewCount card))%Q in
  ∃ days factor : Q,
    spec_base_interval (Review.confidence result) days ∧
    spec_multiplier (reviewCount card) (correctCount card) factor ∧
    ((successRate == 0.8)%Q ∨ (successRate == 0.5)%Q → factor = 1%Q) ∧
    (inject_Z (Review.nextReview result)
       == inject_Z now + days * factor * inject_Z msPerDay)%Q.
Proof.
  destruct (calculateNextReview_ms now card quality)
    as (days & factor & m & Hd & Hf & Hms & _ & Hnext).
  exists days, factor. cbv zeta. rewrite Hnext, inject_Z_plus, Hms.
  repeat split; try done.
  intros Hrate.
  destruct Hf as [[_ ->]|[(_ & Hhi & _)|[(_ & Hlo & _)|(_ & _ & _ & ->)]]]; try done.
  - exfalso. destruct Hrate as [E|E]; rewrite E in Hhi; by vm_compute in Hhi.
  - exfalso. destruct Hrate as [E|E]; rewrite E in Hlo; by vm_compute in Hlo.
Qed.

Lemma calculateNextReview_schedule_witness :
  let result := calculateNextReview today cardE 4 in
  let successRate := (inject_Z (correctCount cardE) / inject_Z (reviewCount cardE))%Q in
  ∃ days factor : Q,
    spec_base_interval (Review.confidence result) days ∧
    spec_multiplier (reviewCount cardE) (correctCount cardE) factor ∧
    ((successRate == 0.8)%Q ∨ (successRate == 0.5)%Q → factor = 1%Q) ∧
    (inject_Z (Review.nextReview result)
       == inject_Z today + days * factor * inject_Z msPerDay)%Q.
Proof. exact (calculateNextReview_schedule today cardE 4). Defined.

(** C8.  A stored confidence of exactly 0 is taken as unset: the card is
    scored as the same card with confidence 50. *)
Theorem calculateNextReview_zero_is_default (now : Date) (card : FlashCard) (quality : Z) :
  confidence card = 0 →
  calculateNextReview now card quality
  = calculateNextReview now (set_confidence card 50) quality.
Proof.
  intros H0. unfold calculateNextReview.
  cbn [set_confidence confidence reviewCount correctCount]. by rewrite H0.
Qed.

Lemma calculateNextReview_zero_is_default_witness :
  calculateNextReview today cardZ 5
  = calculateNextReview today (set_confidence cardZ 50) 5.
Proof. apply (calculateNextReview_zero_is_default today cardZ 5). reflexivity. Defined.

(** C10.  For a quality in [0,5] the review is scheduled strictly after the
    current time. *)
Theorem calculateNextReview_in_future (now : Date) (card : FlashCard) (quality : Z) :
  0 ≤ quality ≤ 5 →
  now < Review.nextReview (calculateNextReview now card quality).
Proof.
  intros _.
  destruct (calculateNextReview_ms now card quality) as (_ & _ & m & _ & _ & _ & Hm & ->).
  lia.
Qed.

Lemma calculateNextReview_in_future_witness :
  today < Review.nextReview (calculateNextReview today cardZ 0).
Proof. apply (calculateNextReview_in_future today cardZ 0). lia. Defined.

(** * Properties of the array primitives *)

Section ArrayFacts.
Context {A : Type}.
Implicit Types (l a : list A) (i j k : nat).

Lemma Array_slice_0 l (n : Z) :
  Array_slice l 0 n = take (relative_index (length l) n) l.
Proof.
  unfold Array_slice.
  assert (relative_index (length l) 0 = 0%nat) as ->
    by (unfold relative_index; cbn; lia).
  by rewrite Nat.sub_0_r, drop_0.
Qed.

Lemma Array_slice_prefix l (n : Z) :
  0 ≤ n → Array_slice l 0 n = take (Z.to_nat n) l.
Proof.
  intros Hn. rewrite Array_slice_0. unfold relative_index.
  destruct (Z.ltb_spec n 0); [lia|].
  destruct (Z.min_spec n (Z.of_nat (length l))) as [[? ->]|[? ->]]; [done|].
  rewrite Nat2Z.id, !take_ge; [done | lia | done].
Qed.

Lemma Array_slice_sublist l (s e : Z) : Array_slice l s e `sublist_of` l.
Proof.
  unfold Array_slice. etrans; [apply sublist_take | apply sublist_drop].
Qed.

Lemma Array_slice_nil (s e : Z) : Array_slice (@nil A) s e = [].
Proof. apply sublist_nil_r, Array_slice_sublist. Qed.

Lemma Array_slice_0_0 l : Array_slice l 0 0 = [].
Proof. by rewrite Array_slice_prefix. Qed.

Lemma Array_slice_from_drop l (n : Z) :
  0 ≤ n → Array_slice_from l n = drop (Z.to_nat n) l.
Proof.
  intros Hn. unfold Array_slice_from, Array_slice, relative_index.
  destruct (Z.ltb_spec n 0); [lia|].
  destruct (Z.ltb_spec (Z.of_nat (length l)) 0); [lia|].
  rewrite Z.min_id, Nat2Z.id.
  destruct (Z.min_spec n (Z.of_nat (length l))) as [[? ->]|[? ->]].
  - apply take_ge. rewrite length_drop. lia.
  - rewrite Nat2Z.id, Nat.sub_diag, take_0, drop_ge; [done | lia].
Qed.

Lemma length_Array_slice_prefix l (n : Z) :
  0 ≤ n → length (Array_slice l 0 n) = (Z.to_nat n `min` length l)%nat.
Proof. intros. by rewrite Array_slice_prefix, length_take. Qed.

(** The swap exchanges two cells and keeps the others. *)
Lemma swap_Permutation a i j : swap a i j ≡ₚ a.
Proof.
  unfold swap.
  destruct (a !! j) as [aj|] eqn:Hj; [|done].
  destruct (a !! i) as [ai|] eqn:Hi; [|done].
  pose proof (lookup_lt_Some _ _ _ Hi). pose proof (lookup_lt_Some _ _ _ Hj).
  apply Permutation_inj. split; [by rewrite !length_insert|].
  exists (λ k, if decide (k = i) then j else if decide (k = j) then i else k).
  split.
  - intros x y. repeat case_decide; intros; subst; congruence.
  - intros k. rewrite !list_lookup_insert, !length_insert.
    destruct (decide (k = i)) as [Hki|Hki]; destruct (decide (k = j)) as [Hkj|Hkj];
      repeat case_decide; try congruence; lia.
Qed.

(** Inside the array the model is the JavaScript swap. *)
Lemma swap_in_range a i j :
  (j ≤ i)%nat → (i < length a)%nat →
  ∃ ai aj, a !! i = Some ai ∧ a !! j = Some aj ∧
           swap a i j = <[j:=ai]> (<[i:=aj]> a).
Proof.
  intros Hji Hi.
  destruct (lookup_lt_is_Some_2 a i Hi) as [ai Hai].
  destruct (lookup_lt_is_Some_2 a j ltac:(lia)) as [aj Haj].
  exists ai, aj. unfold swap. by rewrite Hai, Haj.
Qed.

Lemma length_swap a i j : length (swap a i j) = length a.
Proof. apply Permutation_length, swap_Permutation. Qed.

Context (compareFn : A → A → Q).

Lemma sort_insert_Permutation (x : A) l : sort_insert compareFn x l ≡ₚ x :: l.
Proof.
  induction l as [|y l IH]; [done|]. cbn.
  destruct (Qgtb _ _); [|done]. rewrite IH. apply Permutation_swap.
Qed.

Lemma Array_sort_Permutation l : Array_sort compareFn l ≡ₚ l.
Proof.
  induction l as [|x l IH]; [done|]. cbn.
  by rewrite sort_insert_Permutation, IH.
Qed.
End ArrayFacts.

(** * Properties of the deck builder *)

Section DeckFacts.
Variable now : Date.
Variable heap : store.
Variable random : random_source.
Implicit Types (cards : list loc) (deckSize : Z) (c : loc).

Lemma sortedCards_Permutation cards : sortedCards now heap cards ≡ₚ cards.
Proof. apply Array_sort_Permutation. Qed.

Lemma elem_of_sortedCards cards c : c ∈ sortedCards now heap cards ↔ c ∈ cards.
Proof. by rewrite sortedCards_Permutation. Qed.

(** Under the contract of [Math.random] the index drawn for position [i]
    is at most [i]: the swap never leaves the array. *)
Lemma random_index_bound (k i : nat) :
  random_source_ok random →
  (Z.to_nat (Math_floor (random k * inject_Z (Z.of_nat i + 1))%Q) ≤ i)%nat.
Proof.
  intros Hok. destruct (Hok k) as [H0 H1]. unfold Math_floor.
  set (n := Z.of_nat i + 1).
  assert (0 < inject_Z n)%Q as Hn by (rewrite <- (Zlt_Qlt 0); lia).
  assert (Qfloor (random k * inject_Z n) < n); [|lia].
  rewrite Zlt_Qlt. eapply Qle_lt_trans; [apply Qfloor_le|].
  rewrite <- (Qmult_1_l (inject_Z n)) at 2. by apply Qmult_lt_compat_r.
Qed.

Lemma shuffle_loop_Permutation (k i : nat) (toShuffle : list loc) :
  shuffle_loop random k i toShuffle ≡ₚ toShuffle.
Proof.
  revert k toShuffle. induction i as [|i IH]; intros k toShuffle; [done|].
  cbn [shuffle_loop]. cbv zeta. rewrite IH. apply swap_Permutation.
Qed.

Lemma elem_of_slice_filter (P : loc → Prop) `{!∀ c, Decision (P c)} cards (s e : Z) c :
  c ∈ Array_slice (filter P (sortedCards now heap cards)) s e → P c ∧ c ∈ cards.
Proof.
  intros Hc.
  pose proof (elem_of_sublist _ _ _ Hc (Array_slice_sublist _ _ _)) as Hf.
  apply list_elem_of_filter in Hf as [? Hf]. rewrite elem_of_sortedCards in Hf. done.
Qed.

Lemma elem_of_quotaDeck cards deckSize c :
  c ∈ quotaDeck now heap cards deckSize → c ∈ cards.
Proof.
  unfold quotaDeck. rewrite !elem_of_app.
  intros [Hc|[Hc|Hc]]; by apply elem_of_slice_filter in Hc as [_ ?].
Qed.

Lemma elem_of_composedDeck cards deckSize c :
  c ∈ composedDeck now heap cards deckSize → c ∈ cards.
Proof.
  unfold composedDeck. cbv zeta.
  destruct (_ <? _); [|apply elem_of_quotaDeck].
  rewrite elem_of_app. intros [Hc|Hc]; [by eapply elem_of_quotaDeck|].
  by apply elem_of_slice_filter in Hc as [_ ?].
Qed.

Lemma generateStudyDeck_unfold cards deckSize :
  generateStudyDeck now heap random cards deckSize
  = take 3 (composedDeck now heap cards deckSize)
    ++ shuffle_loop random 0 (length (drop 3 (composedDeck now heap cards deckSize)) - 1)
         (drop 3 (composedDeck now heap cards deckSize)).
Proof.
  transitivity
    (Array_slice (composedDeck now heap cards deckSize) 0 3
     ++ shuffle_loop random 0
          (length (Array_slice_from (composedDeck now heap cards deckSize) 3) - 1)
          (Array_slice_from (composedDeck now heap cards deckSize) 3)).
  - unfold generateStudyDeck, composedDeck, quotaDeck, sortedCards,
      newCardLimit, weakCardLimit, dueCardLimit.
    cbv zeta. cbn [app]. by rewrite <- !app_assoc.
  - by rewrite Array_slice_prefix, Array_slice_from_drop.
Qed.

(** The shuffle only reorders the composed deck. *)
Lemma generateStudyDeck_Permutation cards deckSize :
  generateStudyDeck now heap random cards deckSize ≡ₚ composedDeck now heap cards deckSize.
Proof.
  rewrite generateStudyDeck_unfold, shuffle_loop_Permutation. by rewrite take_drop.
Qed.

Lemma generateStudyDeck_take_3 cards deckSize :
  take 3 (generateStudyDeck now heap random cards deckSize)
  = take 3 (composedDeck now heap cards deckSize).
Proof.
  rewrite generateStudyDeck_unfold.
  set (deck := composedDeck now heap cards deckSize).
  destruct (decide (length deck ≤ 3)%nat) as [Hle|Hgt].
  - rewrite (drop_ge deck 3) by done. cbn. by rewrite app_nil_r, take_take.
  - rewrite take_app_le by (rewrite length_take; lia). by rewrite take_take.
Qed.
End DeckFacts.

(** ** The composition when no card is both weak and due

    The backfill skips the cards already in the deck; the pushes of the
    weak and of the due cards do not.  The lemmas below show that this is
    the only way in which a card is repeated or a deck outgrows its pool. *)

Section Composition.
Variable now : Date.
Variable heap : store.
Implicit Types (cards : list loc) (deckSize : Z) (c : loc).

Lemma byPriority_positive (a b : loc) :
  Qgtb (byPriority now heap a b) 0 = true
  ↔ (getCardPriority now (heap b) < getCardPriority now (heap a))%Q.
Proof. rewrite Qgtb_true. unfold byPriority. symmetry. apply Qlt_minus_iff. Qed.

Lemma sort_insert_sorted (x : loc) (l : list loc) :
  StronglySorted (by_priority now heap) l →
  StronglySorted (by_priority now heap) (sort_insert (byPriority now heap) x l).
Proof.
  induction 1 as [|y l Hl IH Hy]; cbn [sort_insert].
  { repeat constructor. }
  destruct (Qgtb _ _) eqn:Hcmp.
  - apply byPriority_positive in Hcmp. constructor; [done|].
    rewrite sort_insert_Permutation. constructor; [by apply Qlt_le_weak | done].
  - assert (by_priority now heap x y) as Hxy.
    { unfold by_priority. apply Qnot_lt_le. intros Hlt.
      apply byPriority_positive in Hlt. congruence. }
    constructor; [by constructor|]. constructor; [done|].
    eapply Forall_impl; [exact Hy|]. intros z Hz. unfold by_priority in *.
    by eapply Qle_trans.
Qed.

(** The pool is sorted ascending by priority. *)
Lemma sortedCards_sorted cards : StronglySorted (by_priority now heap) (sortedCards now heap cards).
Proof.
  induction cards as [|x cards IH]; [constructor|]. by apply sort_insert_sorted.
Qed.

Lemma newCardLimit_eq deckSize : newCardLimit deckSize = deckSize * 3 / 10.
Proof. reflexivity. Qed.

Lemma weakCardLimit_eq deckSize : weakCardLimit deckSize = deckSize * 4 / 10.
Proof. reflexivity. Qed.

Lemma limits_nonneg deckSize :
  0 ≤ deckSize →
  0 ≤ newCardLimit deckSize ∧ 0 ≤ weakCardLimit deckSize ∧ 0 ≤ dueCardLimit deckSize.
Proof.
  unfold dueCardLimit. rewrite newCardLimit_eq, weakCardLimit_eq. intros.
  Z.div_mod_to_equations. lia.
Qed.

Lemma length_quotaDeck cards deckSize :
  0 ≤ deckSize → Z.of_nat (length (quotaDeck now heap cards deckSize)) ≤ deckSize.
Proof.
  intros Hn. destruct (limits_nonneg deckSize Hn) as (Hnew & Hweak & Hdue).
  unfold quotaDeck. rewrite !length_app, !length_Array_slice_prefix by done.
  unfold dueCardLimit in *. lia.
Qed.

Lemma isNew_not_weak c : isNew heap c → ¬ isWeak heap c.
Proof.
  unfold isNew, isWeak. intros Hnew [_ Hrc]%andb_prop_elim.
  apply Is_true_true, Z.eqb_eq in Hnew. apply Is_true_true, Z.ltb_lt in Hrc. lia.
Qed.

Lemma isNew_not_due c : isNew heap c → ¬ isDue now heap c.
Proof.
  unfold isNew, isDue. intros Hnew Hdue. destruct (nextReview (heap c)); [|done].
  apply andb_prop_elim in Hdue as [_ Hrc].
  apply Is_true_true, Z.eqb_eq in Hnew. apply Is_true_true, Z.ltb_lt in Hrc. lia.
Qed.

Lemma NoDup_slice_filter (P : loc → Prop) `{!∀ c, Decision (P c)} cards (s e : Z) :
  NoDup cards → NoDup (Array_slice (filter P (sortedCards now heap cards)) s e).
Proof.
  intros Hnd. eapply sublist_NoDup; [|apply Array_slice_sublist].
  apply NoDup_filter. by rewrite sortedCards_Permutation.
Qed.

Lemma NoDup_quotaDeck cards deckSize :
  NoDup cards → (∀ c, c ∈ cards → ¬ weak_and_due now heap c) →
  NoDup (quotaDeck now heap cards deckSize).
Proof.
  intros Hnd Hdisj. unfold quotaDeck.
  apply NoDup_app. split; [by apply NoDup_slice_filter|]. split.
  - intros c [Hnew _]%elem_of_slice_filter [[Hweak _]%elem_of_slice_filter
      |[Hdue _]%elem_of_slice_filter]%elem_of_app.
    + by eapply isNew_not_weak.
    + by eapply isNew_not_due.
  - apply NoDup_app. split; [by apply NoDup_slice_filter|].
    split; [|by apply NoDup_slice_filter].
    intros c [Hweak Hc]%elem_of_slice_filter [Hdue _]%elem_of_slice_filter.
    by apply (Hdisj c Hc).
Qed.

Lemma NoDup_composedDeck cards deckSize :
  NoDup cards → (∀ c, c ∈ cards → ¬ weak_and_due now heap c) →
  NoDup (composedDeck now heap cards deckSize).
Proof.
  intros Hnd Hdisj. unfold composedDeck. cbv zeta.
  destruct (_ <? _); [|by apply NoDup_quotaDeck].
  apply NoDup_app. split; [by apply NoDup_quotaDeck|].
  split; [|by apply NoDup_slice_filter].
  by intros c Hc [Hnot _]%elem_of_slice_filter.
Qed.

(** The cards not yet placed: the pool less the deck. *)
Lemma length_remaining cards (deck : list loc) :
  NoDup cards → NoDup deck → (∀ c, c ∈ deck → c ∈ cards) →
  length (filter (λ c, c ∉ deck) (sortedCards now heap cards))
  = (length cards - length deck)%nat.
Proof.
  intros Hnd Hdeck Hsub.
  pose proof (filter_app_complement (λ c, c ∈ deck) (sortedCards now heap cards)) as Hsplit.
  apply Permutation_length in Hsplit. rewrite length_app in Hsplit.
  assert (filter (λ c, c ∈ deck) (sortedCards now heap cards) ≡ₚ deck) as Hin.
  { apply NoDup_Permutation; [|done|].
    - apply NoDup_filter. by rewrite sortedCards_Permutation.
    - intros c. rewrite list_elem_of_filter, elem_of_sortedCards.
      split; [by intros [? _] | intros ?; split; [done | by apply Hsub]]. }
  rewrite Hin in Hsplit.
  pose proof (Permutation_length (sortedCards_Permutation now heap cards)). lia.
Qed.

Lemma length_composedDeck cards deckSize :
  NoDup cards → (∀ c, c ∈ cards → ¬ weak_and_due now heap c) → 0 < deckSize →
  Z.of_nat (length (composedDeck now heap cards deckSize))
  = Z.min deckSize (Z.of_nat (length cards)).
Proof.
  intros Hnd Hdisj Hn.
  pose proof (length_quotaDeck cards deckSize ltac:(lia)) as Hle.
  pose proof (NoDup_quotaDeck cards deckSize Hnd Hdisj) as Hdeck.
  assert (length (quotaDeck now heap cards deckSize) ≤ length cards)%nat as Hpool.
  { apply submseteq_length, NoDup_submseteq; [done|]. apply elem_of_quotaDeck. }
  unfold composedDeck. cbv zeta.
  destruct (Z.ltb_spec (Z.of_nat (length (quotaDeck now heap cards deckSize))) deckSize).
  - rewrite length_app, length_Array_slice_prefix by lia.
    rewrite length_remaining; [lia | done | done | apply elem_of_quotaDeck].
  - lia.
Qed.

Lemma distinct_ids_inj cards (a b : loc) :
  distinct_ids heap cards → a ∈ cards → b ∈ cards →
  id (heap a) = id (heap b) → a = b.
Proof.
  unfold distinct_ids. induction cards as [|x cards IH]; [by intros _ ?%elem_of_nil|].
  rewrite fmap_cons, NoDup_cons, list_elem_of_fmap.
  intros [Hx Hnd] [->|Ha]%elem_of_cons [->|Hb]%elem_of_cons Heq; [done| | |by apply IH].
  - destruct Hx. by exists b.
  - destruct Hx. by exists a.
Qed.
End Composition.

(** Without a card that is both weak and due, the deck of a pool with
    distinct identifiers has distinct identifiers. *)
Lemma generateStudyDeck_distinct_ids (now : Date) (heap : store) (random : random_source)
    (cards : list loc) (deckSize : Z) :
  distinct_ids heap cards → (∀ c, c ∈ cards → ¬ weak_and_due now heap c) →
  distinct_ids heap (generateStudyDeck now heap random cards deckSize).
Proof.
  intros Hids Hdisj. unfold distinct_ids.
  assert (NoDup cards) as Hnd by (by eapply NoDup_fmap_1).
  apply NoDup_fmap_2_strong.
  - intros a b Ha Hb. apply (distinct_ids_inj heap cards); [done| |].
    + rewrite generateStudyDeck_Permutation in Ha. by eapply elem_of_composedDeck.
    + rewrite generateStudyDeck_Permutation in Hb. by eapply elem_of_composedDeck.
  - rewrite generateStudyDeck_Permutation. by apply NoDup_composedDeck.
Qed.

(** Without such a card, the deck of a pool of distinct cards has
    [min n (length pool)] entries for a positive size [n]. *)
Lemma generateStudyDeck_length (now : Date) (heap : store) (random : random_source)
    (cards : list loc) (deckSize : Z) :
  NoDup cards → (∀ c, c ∈ cards → ¬ weak_and_due now heap c) → 0 < deckSize →
  Z.of_nat (length (generateStudyDeck now heap random cards deckSize))
  = Z.min deckSize (Z.of_nat (length cards)).
Proof.
  intros. rewrite generateStudyDeck_Permutation. by apply length_composedDeck.
Qed.

Example generateStudyDeck_length_sample :
  Z.of_nat (length (generateStudyDeck today pool_store sample_random [0; 2; 3]%nat 20))
  = Z.min 20 (Z.of_nat (length [0; 2; 3]%nat)) ∧
  distinct_ids pool_store (generateStudyDeck today pool_store sample_random [0; 2; 3]%nat 20).
Proof.
  assert (∀ c, c ∈ [0; 2; 3]%nat → ¬ weak_and_due today pool_store c) as Hdisj.
  { intros c Hc [Hweak _].
    repeat (apply elem_of_cons in Hc as [->|Hc]); try done. by apply elem_of_nil in Hc. }
  assert (distinct_ids pool_store [0; 2; 3]%nat) as Hids.
  { unfold distinct_ids. cbn. apply (bool_decide_unpack _). by vm_compute. }
  split.
  - apply generateStudyDeck_length; [by eapply NoDup_fmap_1 | done | done].
  - by apply generateStudyDeck_distinct_ids.
Qed.

(** * What the specification states about the deck *)

(** The example scenario of the specification, pool [A, B, C] and size 3:
    the slots are 0 new, 1 weak and 2 due, so B is taken as weak and again
    as due, and A fills the last place. *)
Example scenario_deck (random : random_source) :
  sortedCards today pool_store [0; 1; 2]%nat = [1; 0; 2]%nat ∧
  generateStudyDeck today pool_store random [0; 1; 2]%nat 3 = [1; 1; 0]%nat.
Proof. split; reflexivity. Qed.

Lemma sample_random_ok : random_source_ok sample_random.
Proof. by intros k; split. Qed.

(** C1.  The card at [1] is both weak and due: it is pushed once from the
    weak cards and once more from the due cards, so the deck of a pool with
    distinct identifiers names "B" twice. *)
Theorem generateStudyDeck_repeats_card (random : random_source) :
  distinct_ids pool_store [1%nat] ∧
  generateStudyDeck today pool_store random [1%nat] 20 = [1%nat; 1%nat] ∧
  ¬ distinct_ids pool_store (generateStudyDeck today pool_store random [1%nat] 20).
Proof.
  assert (generateStudyDeck today pool_store random [1%nat] 20 = [1%nat; 1%nat]) as ->
    by reflexivity.
  split; [|split; [done|]].
  - apply NoDup_singleton.
  - unfold distinct_ids. cbn. rewrite NoDup_cons. intros [Hnotin _].
    apply Hnotin. left.
Qed.

(** C5.  On the same pool of one card the deck of requested size 20 has
    two entries, not [min 20 1]. *)
Theorem generateStudyDeck_longer_than_pool (random : random_source) :
  length (generateStudyDeck today pool_store random [1%nat] 20) = 2%nat ∧
  Z.of_nat 2 ≠ Z.min 20 (Z.of_nat (length [1%nat])).
Proof. split; [reflexivity | done]. Qed.

(** C6, counterexample.  With requested size -1 the end index of the first
    slice is -1, which drops only the last new card: the deck is not empty. *)
Lemma empty_deck_on_edge_fails :
  ¬ empty_deck_on_edge today pool_store sample_random [0%nat; 3%nat] (-1).
Proof.
  intros H. assert (-1 ≤ 0) as Hsize by done.
  specialize (H (or_intror Hsize)). by vm_compute in H.
Qed.

(** C6, amended.  The deck is empty whenever the pool is empty, for every
    requested size, and whenever the requested size is 0, for every pool. *)
Theorem generateStudyDeck_empty (now : Date) (heap : store) (random : random_source) :
  (∀ deckSize, generateStudyDeck now heap random [] deckSize = []) ∧
  (∀ cards, generateStudyDeck now heap random cards 0 = []).
Proof.
  split.
  - intros deckSize.
    assert (composedDeck now heap [] deckSize = []) as Hdeck.
    { unfold composedDeck, quotaDeck. cbn. rewrite !Array_slice_nil. cbn.
      by destruct (_ <? _). }
    by rewrite generateStudyDeck_unfold, Hdeck.
  - intros cards.
    assert (composedDeck now heap cards 0 = []) as Hdeck.
    { unfold composedDeck.
      assert (quotaDeck now heap cards 0 = []) as ->; [|done].
      unfold quotaDeck.
      change (newCardLimit 0) with 0. change (weakCardLimit 0) with 0.
      change (dueCardLimit 0) with 0. by rewrite !Array_slice_0_0. }
    by rewrite generateStudyDeck_unfold, Hdeck.
Qed.

(** C7, counterexample.  The new card [0] fills the first slot although the
    three hard cards have a lower priority value. *)
Lemma top3_by_priority_fails :
  random_source_ok sample_random ∧
  ¬ top3_by_priority today pool_store sample_random [0; 4; 5; 6]%nat 20.
Proof. split; [apply sample_random_ok|]. intros H. by vm_compute in H. Qed.

(** C7, amended.  Whatever the random source, the first min(3, length)
    entries of the returned deck are the first 3 entries of the composed
    deck: the new cards taken, then the weak, then the due, then the
    backfill, each drawn in priority order; the shuffle changes neither
    them nor the length. *)
Theorem generateStudyDeck_top3 (now : Date) (heap : store) (random : random_source)
    (cards : list loc) (deckSize : Z) :
  random_source_ok random →
  let deck := generateStudyDeck now heap random cards deckSize in
  take (3 `min` length deck) deck = take 3 (composedDeck now heap cards deckSize) ∧
  length deck = length (composedDeck now heap cards deckSize).
Proof.
  intros _ deck. split.
  - rewrite <- (generateStudyDeck_take_3 now heap random). fold deck.
    destruct (Nat.min_spec 3 (length deck)) as [[_ ->]|[Hle ->]]; [done|].
    by rewrite !take_ge by lia.
  - apply Permutation_length, generateStudyDeck_Permutation.
Qed.

Lemma generateStudyDeck_top3_witness :
  let deck := generateStudyDeck today pool_store sample_random [0; 4; 5; 6]%nat 20 in
  take (3 `min` length deck) deck
  = take 3 (composedDeck today pool_store [0; 4; 5; 6]%nat 20) ∧
  length deck = length (composedDeck today pool_store [0; 4; 5; 6]%nat 20).
Proof.
  apply (generateStudyDeck_top3 today pool_store sample_random [0; 4; 5; 6]%nat 20).
  by intros k; split.
Defined.

(** C9.  Every entry of the returned deck is one of the card objects of the
    pool: the builder selects and reorders references, and the store is
    not written. *)
Theorem generateStudyDeck_from_pool (now : Date) (heap : store) (random : random_source)
    (cards : list loc) (deckSize : Z) (c : loc) :
  random_source_ok random →
  c ∈ generateStudyDeck now heap random cards deckSize → c ∈ cards.
Proof.
  intros _. rewrite generateStudyDeck_Permutation. apply elem_of_composedDeck.
Qed.

Lemma generateStudyDeck_from_pool_witness : 2%nat ∈ [0; 1; 2; 3]%nat.
Proof.
  apply (generateStudyDeck_from_pool today pool_store sample_random [0; 1; 2; 3]%nat 20 2%nat).
  - by intros k; split.
  - vm_compute. apply list_elem_of_In. cbn. tauto.
Defined.

(** * Further properties of the scorer *)

(** Linear arithmetic over the rationals, after the divisions by the two
    constants of the priority formula are written as products. *)
Ltac priority_lra :=
  change (inject_Z msPerDay) with 86400000%Q;
  change (inject_Z 100) with 100%Q in *; change (inject_Z 1) with 1%Q in *;
  unfold Qdiv;
  change (/ 86400000)%Q with (1 # 86400000)%Q; change (/ 50)%Q with (1 # 50)%Q;
  lra.

Lemma getCardPriority_reviewed (now : Date) (card : FlashCard) (nr : Date) :
  reviewCount card ≠ 0 → nextReview card = Some nr →
  (getCardPriority now card ==
     (inject_Z nr - inject_Z now) / inject_Z msPerDay
     - (100 - inject_Z (confidence card)) / 50 - inject_Z (difficulty card) * 2)%Q.
Proof.
  intros Hrc Hnr. unfold getCardPriority. apply Z.eqb_neq in Hrc. rewrite Hrc, Hnr.
  cbv zeta. change (inject_Z msPerDay) with (24 * 60 * 60 * 1000)%Q.
  destruct (nr <? now); field.
Qed.

(** X1.  Among reviewed cards with a review date, the priority value grows
    with the review date and with the confidence and falls with the
    difficulty: a card due no later, known no better and no easier than
    another is at least as urgent. *)
Theorem getCardPriority_monotone (now : Date) (c1 c2 : FlashCard) (n1 n2 : Date) :
  reviewCount c1 ≠ 0 → reviewCount c2 ≠ 0 →
  nextReview c1 = Some n1 → nextReview c2 = Some n2 →
  n1 ≤ n2 → confidence c1 ≤ confidence c2 → difficulty c2 ≤ difficulty c1 →
  (getCardPriority now c1 <= getCardPriority now c2)%Q.
Proof.
  intros Hr1 Hr2 Hn1 Hn2 Hn Hc Hd.
  rewrite (getCardPriority_reviewed now c1 n1), (getCardPriority_reviewed now c2 n2) by done.
  rewrite Zle_Qle in Hn, Hc, Hd. priority_lra.
Qed.

Lemma getCardPriority_monotone_witness :
  (getCardPriority today (sample_card "B" 3 5 1 20 (Some (today - msPerDay)%Z))
   <= getCardPriority today (sample_card "C" 1 10 9 95 (Some (today + 7 * msPerDay)%Z)))%Q.
Proof.
  apply (getCardPriority_monotone today _ _ (today - msPerDay) (today + 7 * msPerDay));
    done.
Defined.

(** X2.  A reviewed card that is due or has no review date, with
    confidence at most 100 and difficulty at least 1, has a negative
    priority value: it is sorted before every card never reviewed. *)
Theorem getCardPriority_due_before_new (now : Date) (card fresh : FlashCard) :
  reviewCount card ≠ 0 → reviewCount fresh = 0 →
  (∀ nr, nextReview card = Some nr → nr ≤ now) →
  confidence card ≤ 100 → 1 ≤ difficulty card →
  (getCardPriority now card < getCardPriority now fresh)%Q.
Proof.
  intros Hrc Hfresh Hdue Hc Hd.
  assert (getCardPriority now fresh = 0%Q) as ->.
  { unfold getCardPriority. by rewrite Hfresh. }
  rewrite Zle_Qle in Hc, Hd.
  destruct (nextReview card) as [nr|] eqn:Hnr.
  - rewrite (getCardPriority_reviewed now card nr) by done.
    specialize (Hdue nr eq_refl). rewrite Zle_Qle in Hdue. priority_lra.
  - unfold getCardPriority. apply Z.eqb_neq in Hrc. rewrite Hrc, Hnr. cbv zeta.
    priority_lra.
Qed.

Lemma getCardPriority_due_before_new_witness :
  (getCardPriority today cardZ < getCardPriority today cardA)%Q.
Proof.
  apply (getCardPriority_due_before_new today cardZ cardA); try done.
  intros nr [= <-]. unfold msPerDay. lia.
Defined.

(** X3.  For a stored confidence in [0,100] the returned confidence is
    monotone in the quality: a better answer never gives a lower
    confidence. *)
Theorem calculateNextReview_confidence_monotone (now : Date) (card : FlashCard) (q1 q2 : Z) :
  0 ≤ confidence card ≤ 100 → q1 ≤ q2 →
  Review.confidence (calculateNextReview now card q1)
  ≤ Review.confidence (calculateNextReview now card q2).
Proof.
  intros Hc Hq. rewrite !calculateNextReview_steps. cbn [Review.confidence].
  unfold confidenceUpdate, or_default.
  destruct (Z.eqb_spec (confidence card) 0);
    destruct (Z.leb_spec 3 q1); destruct (Z.leb_spec 3 q2); lia.
Qed.

Lemma calculateNextReview_confidence_monotone_witness :
  Review.confidence (calculateNextReview today cardE 1)
  ≤ Review.confidence (calculateNextReview today cardE 4).
Proof. apply (calculateNextReview_confidence_monotone today cardE 1 4); done. Defined.

(** X4.  For a stored confidence from 1 to 100, an answer of quality 3 or
    more never lowers the confidence and an answer below 3 strictly lowers
    it.  (A stored 0 is read as 50, so there a failed answer can return
    more than was stored.) *)
Theorem calculateNextReview_pass_fail (now : Date) (card : FlashCard) (quality : Z) :
  1 ≤ confidence card ≤ 100 →
  (3 ≤ quality → confidence card ≤ Review.confidence (calculateNextReview now card quality)) ∧
  (quality < 3 → Review.confidence (calculateNextReview now card quality) < confidence card).
Proof.
  intros Hc. rewrite !calculateNextReview_steps. cbn [Review.confidence].
  unfold confidenceUpdate, or_default.
  destruct (Z.eqb_spec (confidence card) 0); [lia|].
  destruct (Z.leb_spec 3 quality); lia.
Qed.

Lemma calculateNextReview_pass_fail_witness :
  (3 ≤ 5 → confidence cardE ≤ Review.confidence (calculateNextReview today cardE 5)) ∧
  (2 < 3 → Review.confidence (calculateNextReview today cardE 2) < confidence cardE).
Proof.
  split.
  - apply (calculateNextReview_pass_fail today cardE 5). done.
  - apply (calculateNextReview_pass_fail today cardE 2). done.
Defined.

Lemma calculateNextReview_exact (now : Date) (card : FlashCard) (quality : Z) :
  (inject_Z (Review.nextReview (calculateNextReview now card quality))
   == inject_Z now
      + adjustInterval card (baseInterval (confidenceUpdate card quality))
        * inject_Z msPerDay)%Q.
Proof.
  pose proof (baseInterval_spec (confidenceUpdate card quality)) as Hd.
  destruct (adjustInterval_spec card (baseInterval (confidenceUpdate card quality)))
    as (factor & Hf & Hadj).
  destruct (interval_milliseconds _ _ _ _ _ Hd Hf) as (m & _ & Hms).
  rewrite Hadj, Hms, <- inject_Z_plus. apply inject_Z_injective.
  rewrite calculateNextReview_steps. cbn [Review.nextReview]. unfold new_Date.
  apply ToIntegerOrInfinity_integer.
  rewrite Hadj, inject_Z_plus, <- Hms.
  change (inject_Z msPerDay) with (24 * 60 * 60 * 1000)%Q. ring.
Qed.

Lemma baseInterval_monotone (c1 c2 : Z) :
  c1 ≤ c2 → (baseInterval c1 <= baseInterval c2)%Q.
Proof.
  intros Hc. unfold baseInterval.
  repeat match goal with
         | |- context [?a <=? ?b] => destruct (Z.leb_spec a b)
         end; try lia; done.
Qed.

Lemma adjustInterval_monotone (card : FlashCard) (i1 i2 : Q) :
  (i1 <= i2)%Q → (adjustInterval card i1 <= adjustInterval card i2)%Q.
Proof.
  intros Hi. unfold adjustInterval.
  destruct (0 <? reviewCount card); [|done].
  destruct (Qgtb _ _); [lra|]. destruct (Qltb _ _); [lra|done].
Qed.

(** X5.  For a stored confidence in [0,100] the review date is monotone in
    the quality: a better answer never schedules the card earlier. *)
Theorem calculateNextReview_date_monotone (now : Date) (card : FlashCard) (q1 q2 : Z) :
  0 ≤ confidence card ≤ 100 → q1 ≤ q2 →
  Review.nextReview (calculateNextReview now card q1)
  ≤ Review.nextReview (calculateNextReview now card q2).
Proof.
  intros Hc Hq. rewrite Zle_Qle, !calculateNextReview_exact.
  assert (confidenceUpdate card q1 ≤ confidenceUpdate card q2) as Hconf.
  { unfold confidenceUpdate, or_default.
    destruct (Z.eqb_spec (confidence card) 0);
      destruct (Z.leb_spec 3 q1); destruct (Z.leb_spec 3 q2); lia. }
  apply Qplus_le_r, Qmult_le_compat_r; [|done].
  by apply adjustInterval_monotone, baseInterval_monotone.
Qed.

Lemma calculateNextReview_date_monotone_witness :
  Review.nextReview (calculateNextReview today cardE 1)
  ≤ Review.nextReview (calculateNextReview today cardE 4).
Proof. apply (calculateNextReview_date_monotone today cardE 1 4); done. Defined.

Lemma interval_bounds (c rc cc : Z) (days factor : Q) (m : Z) :
  spec_base_interval c days → spec_multiplier rc cc factor →
  (days * factor * inject_Z msPerDay == inject_Z m)%Q →
  1814400 ≤ m ≤ 907200000.
Proof.
  intros Hd Hf Hm. apply ToIntegerOrInfinity_integer in Hm as <-.
  destruct Hd as [[_ ->]|[[_ ->]|[[_ ->]|[[_ ->]|[_ ->]]]]];
    destruct Hf as [[_ ->]|[(_ & _ & ->)|[(_ & _ & ->)|(_ & _ & _ & ->)]]];
    by vm_compute.
Qed.

(** X6.  Whatever the card and the quality, the review is scheduled at
    least 1814400 ms (half of 0.042 days) and at most 10.5 days after the
    current time. *)
Theorem calculateNextReview_window (now : Date) (card : FlashCard) (quality : Z) :
  now + 1814400 ≤ Review.nextReview (calculateNextReview now card quality)
                ≤ now + 907200000.
Proof.
  destruct (calculateNextReview_ms now card quality)
    as (days & factor & m & Hd & Hf & Hms & _ & ->).
  pose proof (interval_bounds _ _ _ _ _ _ Hd Hf Hms). lia.
Qed.

(** * Further properties of the deck builder *)

Lemma length_composedDeck_le (now : Date) (heap : store) (cards : list loc) (deckSize : Z) :
  0 ≤ deckSize → Z.of_nat (length (composedDeck now heap cards deckSize)) ≤ deckSize.
Proof.
  intros Hn. pose proof (length_quotaDeck now heap cards deckSize Hn) as Hle.
  unfold composedDeck. cbv zeta.
  destruct (Z.ltb_spec (Z.of_nat (length (quotaDeck now heap cards deckSize))) deckSize);
    [|done].
  rewrite length_app, length_Array_slice_prefix by lia. lia.
Qed.

(** X7.  For every pool, with or without repeated cards, the deck built for
    a size that is not negative has at most that many entries. *)
Theorem generateStudyDeck_at_most_size (now : Date) (heap : store) (random : random_source)
    (cards : list loc) (deckSize : Z) :
  0 ≤ deckSize →
  Z.of_nat (length (generateStudyDeck now heap random cards deckSize)) ≤ deckSize.
Proof.
  intros Hn. rewrite generateStudyDeck_Permutation. by apply length_composedDeck_le.
Qed.

Lemma generateStudyDeck_at_most_size_witness :
  Z.of_nat (length (generateStudyDeck today pool_store sample_random
                      [0; 1; 2; 3; 4; 5; 6]%nat 5)) ≤ 5.
Proof.
  apply (generateStudyDeck_at_most_size today pool_store sample_random
           [0; 1; 2; 3; 4; 5; 6]%nat 5). done.
Defined.

Lemma sample_pool_disjoint :
  ∀ c, c ∈ [0; 2; 3; 4]%nat → ¬ weak_and_due today pool_store c.
Proof.
  intros c Hc [Hweak _].
  repeat (apply elem_of_cons in Hc as [->|Hc]); try done. by apply elem_of_nil in Hc.
Qed.

Lemma sample_pool_ids : distinct_ids pool_store [0; 2; 3; 4]%nat.
Proof. unfold distinct_ids. cbn. apply (bool_decide_unpack _). by vm_compute. Qed.

(** X8.  When the pool has distinct identifiers and no card of it is both
    weak and due, no card and no identifier occurs twice in the deck,
    whatever the requested size. *)
Theorem generateStudyDeck_no_repeat (now : Date) (heap : store) (random : random_source)
    (cards : list loc) (deckSize : Z) :
  distinct_ids heap cards → (∀ c, c ∈ cards → ¬ weak_and_due now heap c) →
  NoDup (generateStudyDeck now heap random cards deckSize) ∧
  distinct_ids heap (generateStudyDeck now heap random cards deckSize).
Proof.
  intros Hids Hdisj. split; [|by apply generateStudyDeck_distinct_ids].
  rewrite generateStudyDeck_Permutation.
  apply NoDup_composedDeck; [by eapply NoDup_fmap_1 | done].
Qed.

Lemma generateStudyDeck_no_repeat_witness :
  NoDup (generateStudyDeck today pool_store sample_random [0; 2; 3; 4]%nat 20) ∧
  distinct_ids pool_store (generateStudyDeck today pool_store sample_random [0; 2; 3; 4]%nat 20).
Proof.
  apply (generateStudyDeck_no_repeat today pool_store sample_random [0; 2; 3; 4]%nat 20).
  - apply sample_pool_ids.
  - apply sample_pool_disjoint.
Defined.

(** X9.  For a pool of distinct cards none of which is both weak and due,
    and a positive size n, the deck has exactly min(n, pool length)
    entries. *)
Theorem generateStudyDeck_exact_length (now : Date) (heap : store) (random : random_source)
    (cards : list loc) (deckSize : Z) :
  NoDup cards → (∀ c, c ∈ cards → ¬ weak_and_due now heap c) → 0 < deckSize →
  Z.of_nat (length (generateStudyDeck now heap random cards deckSize))
  = Z.min deckSize (Z.of_nat (length cards)).
Proof. intros. by apply generateStudyDeck_length. Qed.

Lemma generateStudyDeck_exact_length_witness :
  Z.of_nat (length (generateStudyDeck today pool_store sample_random [0; 2; 3; 4]%nat 3))
  = Z.min 3 (Z.of_nat (length [0; 2; 3; 4]%nat)).
Proof.
  apply (generateStudyDeck_exact_length today pool_store sample_random [0; 2; 3; 4]%nat 3).
  - eapply NoDup_fmap_1, sample_pool_ids.
  - apply sample_pool_disjoint.
  - done.
Defined.

(** X10.  Under the same conditions, a requested size at least the size of
    the pool gives a deck that holds every card of the pool exactly once. *)
Theorem generateStudyDeck_whole_pool (now : Date) (heap : store) (random : random_source)
    (cards : list loc) (deckSize : Z) :
  NoDup cards → (∀ c, c ∈ cards → ¬ weak_and_due now heap c) →
  0 < deckSize → Z.of_nat (length cards) ≤ deckSize →
  generateStudyDeck now heap random cards deckSize ≡ₚ cards.
Proof.
  intros Hnd Hdisj Hpos Hsize. rewrite generateStudyDeck_Permutation.
  apply submseteq_length_Permutation.
  - apply NoDup_submseteq; [by apply NoDup_composedDeck|]. apply elem_of_composedDeck.
  - pose proof (length_composedDeck now heap cards deckSize Hnd Hdisj Hpos). lia.
Qed.

Lemma generateStudyDeck_whole_pool_witness :
  generateStudyDeck today pool_store sample_random [0; 2; 3; 4]%nat 20 ≡ₚ [0; 2; 3; 4]%nat.
Proof.
  apply (generateStudyDeck_whole_pool today pool_store sample_random [0; 2; 3; 4]%nat 20).
  - eapply NoDup_fmap_1, sample_pool_ids.
  - apply sample_pool_disjoint.
  - done.
  - done.
Defined.

(** X11.  The copy of the pool that the builder sorts holds the same cards
    as the pool, in ascending order of priority value. *)
Theorem sortedCards_sorted_Permutation (now : Date) (heap : store) (cards : list loc) :
  sortedCards now heap cards ≡ₚ cards ∧
  StronglySorted (by_priority now heap) (sortedCards now heap cards).
Proof. split; [apply sortedCards_Permutation | apply sortedCards_sorted]. Qed.

(** X12.  The returned deck is a rearrangement of the composed deck: the
    shuffle loses no entry and adds none, whatever the random source. *)
Theorem generateStudyDeck_rearranges (now : Date) (heap : store) (random : random_source)
    (cards : list loc) (deckSize : Z) :
  generateStudyDeck now heap random cards deckSize ≡ₚ composedDeck now heap cards deckSize.
Proof. apply generateStudyDeck_Permutation. Qed.

(** * The study page: deck generation by mode *)

Lemma elem_of_generateStudyDeck (now : Date) (heap : store) (random : random_source)
    (cards : list loc) (deckSize : Z) (c : loc) :
  c ∈ generateStudyDeck now heap random cards deckSize → c ∈ cards.
Proof. rewrite generateStudyDeck_Permutation. apply elem_of_composedDeck. Qed.

Lemma rate_below_half (rc cc : Z) :
  0 < rc → (inject_Z cc / inject_Z rc < 0.5)%Q ↔ 2 * cc < rc.
Proof.
  intros Hrc. destruct rc as [|p|p]; try lia.
  unfold Qlt, Qdiv, Qmult, Qinv. cbn. lia.
Qed.

Lemma generateNewDeck_filtered (now : Date) (heap : store) (random : random_source)
    (selectedChapter : string) (studyMode : StudyMode.t) (deckSize : Z)
    (prev : SessionStats.t) (cards : list loc) (c : loc) :
  c ∈ (generateNewDeck now heap random selectedChapter studyMode deckSize prev cards).1.1 →
  c ∈ cards ∧
  (selectedChapter ≠ "all" → chapter (heap c) = selectedChapter) ∧
  mode_admits heap studyMode c.
Proof.
  unfold generateNewDeck. cbv zeta. cbn [fst]. intros Hc%elem_of_generateStudyDeck.
  assert (∀ x, x ∈ (if bool_decide (selectedChapter ≠ "all")
                    then filter (λ card, chapter (heap card) = selectedChapter) cards
                    else cards) →
               x ∈ cards ∧ (selectedChapter ≠ "all" → chapter (heap x) = selectedChapter))
    as Hchapter.
  { intros x. case_bool_decide as Hall.
    - intros [? ?]%list_elem_of_filter. by split.
    - intros ?. split; [done|]. by intros ?. }
  destruct studyMode; cbn [mode_admits].
  - destruct (Hchapter _ Hc) as [? ?]. by repeat split.
  - apply list_elem_of_filter in Hc as [Hweak Hc].
    destruct (Hchapter _ Hc) as [? ?]. split; [done|]. split; [done|].
    apply orb_prop_elim in Hweak as [Hnew|Hrate].
    + left. by apply Is_true_true, Z.eqb_eq in Hnew.
    + right. apply andb_prop_elim in Hrate as [Hrc Hrate].
      apply Is_true_true, Z.ltb_lt in Hrc. split; [done|].
      apply Is_true_true, Qltb_true in Hrate. by apply rate_below_half.
  - rewrite Array_sort_Permutation in Hc.
    destruct (Hchapter _ Hc) as [? ?]. by repeat split.
  - apply list_elem_of_filter in Hc as [Hnew Hc].
    destruct (Hchapter _ Hc) as [? ?].
    apply Is_true_true, Z.eqb_eq in Hnew. by repeat split.
Qed.

(** X13.  When [generateNewDeck] runs in a render whose state holds the
    mode 'new', every card of the deck it sets has never been reviewed,
    whatever chapter and size that render holds.  (The deck set on mount is
    built by the first render and is not such a deck, see X15.) *)
Theorem generateNewDeck_new_mode (now : Date) (heap : store) (random : random_source)
    (r : Page.Render) (allCards : option (list loc)) (prev : SessionStats.t) (c : loc) :
  Page.studyMode r = StudyMode.new →
  c ∈ (generateNewDeckIn now heap random r allCards prev).1.1 →
  reviewCount (heap c) = 0.
Proof.
  unfold generateNewDeckIn. intros -> Hc.
  by apply generateNewDeck_filtered in Hc as (_ & _ & ?).
Qed.

Lemma generateNewDeck_new_mode_witness : reviewCount (pool_store 3%nat) = 0.
Proof.
  apply (generateNewDeck_new_mode today pool_store sample_random
           (sample_render StudyMode.new) None no_stats 3%nat).
  - reflexivity.
  - vm_compute. apply list_elem_of_In. cbn. tauto.
Defined.

(** X14.  When [generateNewDeck] runs in a render whose state holds the
    mode 'weak', every card of the deck it sets is either never reviewed or
    was answered correctly in fewer than half of its reviews. *)
Theorem generateNewDeck_weak_mode (now : Date) (heap : store) (random : random_source)
    (r : Page.Render) (allCards : option (list loc)) (prev : SessionStats.t) (c : loc) :
  Page.studyMode r = StudyMode.weak →
  c ∈ (generateNewDeckIn now heap random r allCards prev).1.1 →
  reviewCount (heap c) = 0
  ∨ (0 < reviewCount (heap c) ∧ 2 * correctCount (heap c) < reviewCount (heap c)).
Proof.
  unfold generateNewDeckIn. intros -> Hc.
  by apply generateNewDeck_filtered in Hc as (_ & _ & ?).
Qed.

Lemma generateNewDeck_weak_mode_witness :
  reviewCount (pool_store 1%nat) = 0
  ∨ (0 < reviewCount (pool_store 1%nat)
     ∧ 2 * correctCount (pool_store 1%nat) < reviewCount (pool_store 1%nat)).
Proof.
  apply (generateNewDeck_weak_mode today pool_store sample_random
           (sample_render StudyMode.weak) None no_stats 1%nat).
  - reflexivity.
  - vm_compute. apply list_elem_of_In. cbn. tauto.
Defined.

(** X15.  When [generateNewDeck] runs in a render whose state holds the
    mode 'quick', the deck it sets has at most 10 cards, whatever size
    that render holds.  The deck set on mount is not such a deck: for every
    mode in the URL it is the deck that the first render builds, in mode
    'normal' with size 20 and no filter, while the state of the page holds
    the mode of the URL. *)
Theorem generateNewDeck_quick_mode (now : Date) (heap : store) (random : random_source) :
  (∀ r allCards prev,
     Page.studyMode r = StudyMode.quick →
     Z.of_nat (length (generateNewDeckIn now heap random r allCards prev).1.1) ≤ 10) ∧
  (∀ mode loadedCards prev,
     (mount now heap random mode loadedCards prev).2.1.1
       = generateStudyDeck now heap random loadedCards 20 ∧
     ∀ m, urlMode mode = Some m →
          Page.studyMode (mount now heap random mode loadedCards prev).1 = m).
Proof.
  split.
  - intros r allCards prev Hmode. unfold generateNewDeckIn, generateNewDeck.
    rewrite Hmode. cbv zeta. cbn [fst].
    rewrite generateStudyDeck_Permutation. by apply length_composedDeck_le.
  - intros mode loadedCards prev. split; [reflexivity|].
    intros m Hm. unfold mount. cbn [fst Page.studyMode]. by rewrite Hm.
Qed.

Lemma generateNewDeck_quick_mode_witness :
  Z.of_nat (length (generateNewDeckIn today pool_store sample_random
                      (sample_render StudyMode.quick) None no_stats).1.1) ≤ 10 ∧
  Page.studyMode (mount today pool_store sample_random (Some "quick")
                    [0; 1; 2; 3; 4]%nat no_stats).1 = StudyMode.quick.
Proof.
  split.
  - apply (proj1 (generateNewDeck_quick_mode today pool_store sample_random)). reflexivity.
  - apply (proj2 (generateNewDeck_quick_mode today pool_store sample_random)
             (Some "quick") [0; 1; 2; 3; 4]%nat no_stats). reflexivity.
Defined.

(** The page opened with [?mode=new]: its state holds the mode 'new', and
    the deck set on mount holds the reviewed cards [1], [2] and [4]. *)
Example mount_mode_new :
  Page.studyMode (mount today pool_store sample_random (Some "new")
                    [0; 1; 2; 3; 4]%nat no_stats).1 = StudyMode.new ∧
  (mount today pool_store sample_random (Some "new") [0; 1; 2; 3; 4]%nat no_stats).2.1.1
  = [0; 3; 1; 1; 2; 4]%nat.
Proof. split; reflexivity. Qed.

(** X16.  When a chapter is selected, every card of the deck belongs to
    that chapter, in every mode; and the deck is always drawn from the
    given cards. *)
Theorem generateNewDeck_chapter (now : Date) (heap : store) (random : random_source)
    (selectedChapter : string) (studyMode : StudyMode.t) (deckSize : Z)
    (prev : SessionStats.t) (cards : list loc) (c : loc) :
  c ∈ (generateNewDeck now heap random selectedChapter studyMode deckSize prev cards).1.1 →
  c ∈ cards ∧ (selectedChapter ≠ "all" → chapter (heap c) = selectedChapter).
Proof. intros Hc. by apply generateNewDeck_filtered in Hc as (? & ? & _). Qed.

Lemma generateNewDeck_chapter_witness :
  2%nat ∈ [0; 1; 2; 3; 4]%nat ∧ ("1" ≠ "all" → chapter (pool_store 2%nat) = "1").
Proof.
  apply (generateNewDeck_chapter today pool_store sample_random "1" StudyMode.normal 20
           {| SessionStats.studied := 0; SessionStats.correct := 0;
              SessionStats.streak := 0; SessionStats.maxStreak := 0 |}
           [0; 1; 2; 3; 4]%nat 2%nat).
  vm_compute. apply list_elem_of_In. cbn. tauto.
Defined.

(** * The study page: answering cards *)

Lemma confidenceUpdate_range (card : FlashCard) (quality : Z) :
  0 ≤ confidence card ≤ 100 → 0 ≤ confidenceUpdate card quality ≤ 100.
Proof.
  intros Hc. unfold confidenceUpdate, or_default.
  destruct (Z.eqb_spec (confidence card) 0); destruct (Z.leb_spec 3 quality); lia.
Qed.

(** The card that [handleSwipe] writes for the card [cur] of the deck. *)
Lemma handleSwipe_cards (now : Date) (quality : Z) (st : Study.State) (cur : FlashCard) :
  Study.currentDeck st !! Study.currentIndex st = Some cur →
  ∃ updated,
    same_content cur updated ∧
    reviewCount updated = reviewCount cur + 1 ∧
    correctCount updated
      = (if 3 <=? quality then correctCount cur + 1 else correctCount cur) ∧
    confidence updated = Review.confidence (calculateNextReview now cur quality) ∧
    nextReview updated = Some (Review.nextReview (calculateNextReview now cur quality)) ∧
    lastReviewed updated = Some now ∧
    Study.cards (handleSwipe now quality st)
      = (λ card, if String.eqb (id card) (id cur) then updated else card) <$> Study.cards st ∧
    Study.localStorage (handleSwipe now quality st)
      = saveProgress (Study.cards (handleSwipe now quality st)).
Proof.
  intros Hcur. unfold handleSwipe. rewrite Hcur. cbv zeta.
  match goal with
  | |- context [String.eqb _ (id ?u)] => exists u
  end.
  repeat split; reflexivity.
Qed.

Lemma handleSwipe_cards_ok (now : Date) (quality : Z) (st : Study.State) :
  Forall card_ok (Study.cards st) → Forall card_ok (Study.currentDeck st) →
  Forall card_ok (Study.cards (handleSwipe now quality st)).
Proof.
  intros Hcards Hdeck.
  destruct (Study.currentDeck st !! Study.currentIndex st) as [cur|] eqn:Hcur.
  - destruct (handleSwipe_cards now quality st cur Hcur)
      as (u & _ & Hrc & Hcc & Hconf & _ & _ & -> & _).
    assert (card_ok cur) as [Hcount Hrange].
    { rewrite Forall_forall in Hdeck. apply Hdeck. by eapply list_elem_of_lookup_2. }
    assert (card_ok u) as Hu.
    { unfold card_ok. rewrite Hrc, Hcc, Hconf, calculateNextReview_steps.
      cbn [Review.confidence]. pose proof (confidenceUpdate_range cur quality Hrange).
      destruct (3 <=? quality); lia. }
    apply Forall_fmap. eapply Forall_impl; [exact Hcards|].
    intros c Hc. cbn. by destruct (String.eqb _ _).
  - unfold handleSwipe. by rewrite Hcur.
Qed.

(** X17.  Answering a card keeps the review state of every card of the
    page within the data model (0 <= correctCount <= reviewCount and
    confidence in [0,100]), for every quality, in range or not. *)
Theorem handleSwipe_keeps_cards_ok (now : Date) (quality : Z) (st : Study.State) :
  Forall card_ok (Study.cards st) → Forall card_ok (Study.currentDeck st) →
  Forall card_ok (Study.cards (handleSwipe now quality st)).
Proof. apply handleSwipe_cards_ok. Qed.

Lemma handleSwipe_keeps_cards_ok_witness :
  Forall card_ok (Study.cards (handleSwipe today 4 sample_state)).
Proof.
  apply (handleSwipe_keeps_cards_ok today 4 sample_state);
    repeat constructor; done.
Defined.

(** X18.  Answering a card never adds, removes, reorders or renames a card
    of the page: the identifiers stay as they were, every card with another
    identifier than the answered one is left as it was, and a card with the
    answered identifier gets the review count of the deck's copy plus one. *)
Theorem handleSwipe_touches_one_id (now : Date) (quality : Z) (st : Study.State)
    (cur : FlashCard) :
  Study.currentDeck st !! Study.currentIndex st = Some cur →
  Forall2 (λ c c', id c' = id c ∧
                   (id c ≠ id cur → c' = c) ∧
                   (id c = id cur → reviewCount c' = reviewCount cur + 1))
          (Study.cards st) (Study.cards (handleSwipe now quality st)).
Proof.
  intros Hcur.
  destruct (handleSwipe_cards now quality st cur Hcur)
    as (u & Hsame & Hrc & _ & _ & _ & _ & -> & _).
  apply Forall2_fmap_r, Forall_Forall2_diag, Forall_forall. intros c _.
  unfold compose. cbn beta.
  destruct (String.eqb (id c) (id cur)) eqn:Heq.
  - apply String.eqb_eq in Heq. destruct Hsame as [Hid _].
    repeat split; [congruence | done | done].
  - apply String.eqb_neq in Heq. by repeat split.
Qed.

Lemma handleSwipe_touches_one_id_witness :
  Forall2 (λ c c', id c' = id c ∧
                   (id c ≠ id cardE → c' = c) ∧
                   (id c = id cardE → reviewCount c' = reviewCount cardE + 1))
          (Study.cards sample_state) (Study.cards (handleSwipe today 4 sample_state)).
Proof. apply (handleSwipe_touches_one_id today 4 sample_state cardE). reflexivity. Defined.

(** X19.  The session counters stay consistent (0 <= streak <= maxStreak
    and streak <= correct <= studied) when a card is answered, whatever
    the quality, and when a new deck is generated, which resets all but
    the longest streak. *)
Theorem sessionStats_consistent (now : Date) (quality : Z) (st : Study.State)
    (heap : store) (random : random_source) (selectedChapter : string)
    (studyMode : StudyMode.t) (deckSize : Z) (cards : list loc) :
  stats_ok (Study.sessionStats st) →
  stats_ok (Study.sessionStats (handleSwipe now quality st)) ∧
  stats_ok (generateNewDeck now heap random selectedChapter studyMode deckSize
              (Study.sessionStats st) cards).2.
Proof.
  unfold stats_ok. intros Hok. split.
  - unfold handleSwipe. destruct (_ !! _); [|done].
    cbn [Study.sessionStats SessionStats.studied SessionStats.correct
         SessionStats.streak SessionStats.maxStreak].
    destruct (3 <=? quality); lia.
  - cbn. lia.
Qed.

Lemma sessionStats_consistent_witness :
  stats_ok (Study.sessionStats (handleSwipe today 4 sample_state)) ∧
  stats_ok (generateNewDeck today pool_store sample_random "all" StudyMode.normal 20
              (Study.sessionStats sample_state) [0; 1; 2]%nat).2.
Proof.
  apply (sessionStats_consistent today 4 sample_state pool_store sample_random
           "all" StudyMode.normal 20 [0; 1; 2]%nat).
  unfold stats_ok. cbn. lia.
Defined.




(** Three answers on the deck of two cards: the third finds no card, counts
    nothing and leaves the index at 2. *)
Example session_past_the_end :
  Study.currentIndex
    (session [(today, 4); (today + 1000, 1); (today + 2000, 5)] sample_state) = 2%nat ∧
  SessionStats.studied
    (Study.sessionStats
       (session [(today, 4); (today + 1000, 1); (today + 2000, 5)] sample_state)) = 2.
Proof. split; reflexivity. Qed.

(** * The study page: stored progress *)

Lemma same_content_refl (card : FlashCard) : same_content card card.
Proof. by repeat split. Qed.

(** The entry found for a card among the entries saved for a list with
    distinct identifiers is the entry written for that card. *)
Lemma find_saved (cards : list FlashCard) (card : FlashCard) (key : string) :
  NoDup (id <$> cards) → card ∈ cards → key = id card →
  ∃ progress,
    saveProgress cards = Some progress ∧
    ∃ saved,
      List.find (λ p, String.eqb (Progress.id p) key) progress = Some saved ∧
      Progress.id saved = id card ∧
      Progress.reviewCount saved = reviewCount card ∧
      Progress.correctCount saved = correctCount card ∧
      Progress.confidence saved = confidence card ∧
      Progress.lastReviewed saved = lastReviewed card ∧
      Progress.nextReview saved = nextReview card.
Proof.
  intros Hnd Hin ->. unfold saveProgress. eexists. split; [reflexivity|].
  induction cards as [|a cards IH]; [by apply elem_of_nil in Hin|].
  rewrite fmap_cons, NoDup_cons in Hnd. destruct Hnd as [Ha Hnd].
  rewrite fmap_cons. cbn [List.find Progress.id].
  destruct (String.eqb (id a) (id card)) eqn:Heq.
  - apply String.eqb_eq in Heq. apply elem_of_cons in Hin as [->|Hin].
    + eexists. by repeat split.
    + destruct Ha. rewrite Heq. by apply list_elem_of_fmap_2.
  - apply String.eqb_neq in Heq. apply elem_of_cons in Hin as [->|Hin]; [done|].
    by apply IH.
Qed.

Lemma loadProgress_saveProgress_eq (cards0 cards1 : list FlashCard) :
  NoDup (id <$> cards1) → Forall2 same_content cards0 cards1 →
  loadProgress (saveProgress cards1) cards0 = cards1.
Proof.
  intros Hnd Hsame.
  assert (∀ l0 l1, Forall2 same_content l0 l1 → (∀ c, c ∈ l1 → c ∈ cards1) →
                   loadProgress (saveProgress cards1) l0 = l1) as Hgen.
  { induction 1 as [|c0 c1 l0 l1 Hc _ IH]; intros Hsub.
    { reflexivity. }
    destruct (find_saved cards1 c1 (id c0) Hnd) as (progress & Hsave & saved & Hfind & Hs);
      [apply Hsub; left | by destruct Hc |].
    specialize (IH (λ c Hc', Hsub c (list_elem_of_further _ _ _ Hc'))).
    rewrite Hsave in *. cbn [loadProgress] in *. rewrite fmap_cons, IH, Hfind.
    f_equal. destruct Hs as (-> & -> & -> & -> & -> & ->).
    destruct Hc as (_ & -> & -> & -> & -> & -> & -> & -> & -> & ->). by destruct c1. }
  apply Hgen; done.
Qed.

(** X21.  Saving and loading is a round trip: for cards with distinct
    identifiers, loading what [saveProgress] stored for them into cards
    with the same content gives back exactly the saved cards, review state
    and dates included. *)
Theorem loadProgress_saveProgress (cards0 cards1 : list FlashCard) :
  NoDup (id <$> cards1) → Forall2 same_content cards0 cards1 →
  loadProgress (saveProgress cards1) cards0 = cards1.
Proof. apply loadProgress_saveProgress_eq. Qed.

Lemma loadProgress_saveProgress_witness :
  loadProgress (saveProgress [cardE; cardZ])
    [sample_card "E" 1 0 0 0 None; sample_card "Z" 1 0 0 0 None]
  = [cardE; cardZ].
Proof.
  apply (loadProgress_saveProgress
           [sample_card "E" 1 0 0 0 None; sample_card "Z" 1 0 0 0 None] [cardE; cardZ]).
  - apply (bool_decide_unpack _). by vm_compute.
  - repeat constructor.
Defined.

(** X22.  Whatever [saveProgress] has written, for these cards or for any
    others (another card set, another session, other identifiers), or when
    nothing is stored, loading changes neither the number, the order, the
    identifiers nor the content of the cards: only the review state is
    replaced. *)
Theorem loadProgress_same_content (saved : Storage) (cards : list FlashCard) :
  saved = None ∨ (∃ written, saved = saveProgress written) →
  Forall2 same_content cards (loadProgress saved cards).
Proof.
  intros _. destruct saved as [progress|]; cbn [loadProgress].
  - apply Forall2_fmap_r, Forall_Forall2_diag, Forall_forall. intros card _.
    unfold compose. cbn beta.
    destruct (List.find _ progress) as [p|] eqn:Hfind; [|apply same_content_refl].
    apply List.find_some in Hfind as [_ Hid]. apply String.eqb_eq in Hid.
    by repeat split.
  - apply Forall_Forall2_diag, Forall_forall. intros card _. apply same_content_refl.
Qed.

Lemma loadProgress_same_content_witness :
  Forall2 same_content [cardA; cardE] (loadProgress (saveProgress [cardZ; cardE; cardN]) [cardA; cardE]).
Proof.
  apply (loadProgress_same_content (saveProgress [cardZ; cardE; cardN]) [cardA; cardE]).
  right. by exists [cardZ; cardE; cardN].
Defined.

Lemma same_content_trans (a b c : FlashCard) :
  same_content a b → same_content b c → same_content a c.
Proof.
  unfold same_content. intros (?&?&?&?&?&?&?&?&?&?) (?&?&?&?&?&?&?&?&?&?).
  repeat split; congruence.
Qed.

(** X23.  What a swipe stores is what the page holds: when the cards of the
    page have distinct identifiers and the deck's copy of the answered card
    has the content of the page's card, loading the stored progress into
    the cards as they were before the swipe gives the cards as they are
    after it. *)
Theorem handleSwipe_stored (now : Date) (quality : Z) (st : Study.State) (cur : FlashCard) :
  Study.currentDeck st !! Study.currentIndex st = Some cur →
  NoDup (id <$> Study.cards st) →
  (∀ c, c ∈ Study.cards st → id c = id cur → same_content c cur) →
  loadProgress (Study.localStorage (handleSwipe now quality st)) (Study.cards st)
  = Study.cards (handleSwipe now quality st).
Proof.
  intros Hcur Hnd Hdeck.
  destruct (handleSwipe_cards now quality st cur Hcur)
    as (u & Hsame & _ & _ & _ & _ & _ & Hcards & ->).
  assert (Forall2 same_content (Study.cards st) (Study.cards (handleSwipe now quality st)))
    as Hall.
  { rewrite Hcards. apply Forall2_fmap_r, Forall_Forall2_diag, Forall_forall.
    intros c Hc. unfold compose. cbn beta.
    destruct (String.eqb (id c) (id cur)) eqn:Heq; [|apply same_content_refl].
    apply String.eqb_eq in Heq. eapply same_content_trans; [by apply Hdeck | done]. }
  apply loadProgress_saveProgress_eq; [|done].
  assert (id <$> Study.cards (handleSwipe now quality st) = id <$> Study.cards st) as ->; [|done].
  symmetry. apply list_eq_Forall2, Forall2_fmap, (Forall2_impl _ _ _ _ Hall).
  by intros ?? [? _].
Qed.

Lemma handleSwipe_stored_witness :
  loadProgress (Study.localStorage (handleSwipe today 4 sample_state))
    (Study.cards sample_state)
  = Study.cards (handleSwipe today 4 sample_state).
Proof.
  apply (handleSwipe_stored today 4 sample_state cardE).
  - reflexivity.
  - apply (bool_decide_unpack _). by vm_compute.
  - intros c Hc Hid. cbn in Hc.
    repeat (apply elem_of_cons in Hc as [->|Hc]); try done.
    by apply elem_of_nil in Hc.
Defined.

(** X24.  Right after a swipe the answered card is neither new nor due:
    for a deck copy with a review count that is not negative, every card of
    the page with the answered identifier has been reviewed at least once
    and has its next review strictly after the instant of the answer, so
    the deck builder files it under neither the new nor the due cards at
    that instant. *)
Theorem handleSwipe_not_due (now : Date) (quality : Z) (st : Study.State)
    (cur c : FlashCard) :
  Study.currentDeck st !! Study.currentIndex st = Some cur →
  0 ≤ reviewCount cur →
  c ∈ Study.cards (handleSwipe now quality st) → id c = id cur →
  1 ≤ reviewCount c ∧
  (∃ nr, nextReview c = Some nr ∧ now < nr) ∧
  isNew (λ _, c) 0%nat = false ∧ isDue now (λ _, c) 0%nat = false.
Proof.
  intros Hcur Hrc Hc Hid.
  destruct (handleSwipe_cards now quality st cur Hcur)
    as (u & _ & Hurc & _ & _ & Hunr & _ & Hcards & _).
  rewrite Hcards in Hc. apply list_elem_of_fmap in Hc as (c0 & -> & _).
  destruct (String.eqb (id c0) (id cur)) eqn:Heq;
    [|apply String.eqb_neq in Heq; congruence].
  destruct (calculateNextReview_ms now cur quality) as (_ & _ & m & _ & _ & _ & Hm & Hnext).
  rewrite Hnext in Hunr.
  split; [lia|]. split; [exists (now + m); split; [done | lia]|].
  unfold isNew, isDue. rewrite Hunr, Hurc. split.
  - apply Z.eqb_neq. lia.
  - apply andb_false_iff. left. apply Z.leb_gt. lia.
Qed.

Lemma handleSwipe_not_due_witness :
  ∃ c, c ∈ Study.cards (handleSwipe today 4 sample_state) ∧
       1 ≤ reviewCount c ∧
       (∃ nr, nextReview c = Some nr ∧ today < nr) ∧
       isNew (λ _, c) 0%nat = false ∧ isDue today (λ _, c) 0%nat = false.
Proof.
  assert (∃ c, c ∈ Study.cards (handleSwipe today 4 sample_state) ∧ id c = id cardE)
    as (c & Hc & Hid).
  { eexists. split; [right; left | reflexivity]. }
  exists c. split; [done|].
  apply (handleSwipe_not_due today 4 sample_state cardE c); done.
Defined.

(** * The card component: the end of a drag *)

(** X25.  Whatever the offset of the drag, a call of [onSwipe] made by the
    handler carries a quality in [0,5]: 1 with 'left' for a drag of more
    than 100 to the left, 4 with 'right' for more than 100 to the right,
    and 5 with 'up' for a drag of more than 100 upwards that is not
    horizontal by more than 100.  So the quality is at least 3 exactly when
    the direction is not 'left'. *)
Theorem handleDragEnd_quality (offset_x offset_y : Q) (direction : Direction.t) (quality : Z) :
  Drag.onSwipe (handleDragEnd offset_x offset_y) = Some (direction, quality) →
  0 ≤ quality ≤ 5 ∧
  (3 ≤ quality ↔ direction ≠ Direction.left) ∧
  ((direction = Direction.left ∧ quality = 1 ∧ (offset_x < -100)%Q) ∨
   (direction = Direction.right ∧ quality = 4 ∧ (100 < offset_x)%Q) ∨
   (direction = Direction.up ∧ quality = 5 ∧
    (Qabs offset_x <= 100)%Q ∧ (offset_y < -100)%Q)).
Proof.
  unfold handleDragEnd. cbv zeta.
  destruct (Qgtb (Qabs offset_x) 100) eqn:Habs.
  - apply Qgtb_true in Habs. cbn [Drag.onSwipe].
    destruct (Qgtb offset_x 0) eqn:Hpos; intros [= <- <-].
    + apply Qgtb_true in Hpos. rewrite Qabs_pos in Habs by lra.
      split; [lia|]. split; [by split|]. right; left. by repeat split.
    + apply Qgtb_false in Hpos. rewrite Qabs_neg in Habs by done.
      split; [lia|]. split; [split; [lia | done]|]. left. repeat split; [done..|lra].
  - apply Qgtb_false in Habs.
    destruct (Qltb offset_y (- (100))) eqn:Hup; cbn [Drag.onSwipe]; [|done].
    apply Qltb_true in Hup. intros [= <- <-].
    split; [lia|]. split; [by split|]. do 2 right. by repeat split.
Qed.

Lemma handleDragEnd_quality_witness :
  0 ≤ 1 ≤ 5 ∧
  (3 ≤ 1 ↔ Direction.left ≠ Direction.left) ∧
  ((Direction.left = Direction.left ∧ 1 = 1 ∧ (-150 < -100)%Q) ∨
   (Direction.left = Direction.right ∧ 1 = 4 ∧ (100 < -150)%Q) ∨
   (Direction.left = Direction.up ∧ 1 = 5 ∧ (Qabs (-150) <= 100)%Q ∧ (20 < -100)%Q)).
Proof. apply (handleDragEnd_quality (-150) 20 Direction.left 1). reflexivity. Defined.

(** * Statistics *)

Lemma calculateStats_fields (cards : list FlashCard) :
  Stats.mastered (calculateStats cards)
    = Z.of_nat (length (filter (λ c, 80 <=? confidence c) cards)) ∧
  Stats.learning (calculateStats cards)
    = Z.of_nat (length (filter (λ c, (30 <=? confidence c) && (confidence c <? 80)) cards)) ∧
  Stats.new (calculateStats cards)
    = Z.of_nat (length (filter (λ c, reviewCount c =? 0) cards)) ∧
  Stats.averageConfidence (calculateStats cards)
    = (if 0 <? Z.of_nat (length cards)
       then (inject_Z (fold_left (λ sum c, sum + confidence c)%Z cards 0%Z)
             / inject_Z (Z.of_nat (length cards)))%Q
       else 0%Q) ∧
  Stats.weakestTopics (calculateStats cards)
    = fst <$>
        Array_slice
          (Array_sort (λ a b, weakFraction b.2 - weakFraction a.2)%Q
             (filter (λ e, Qgtb (weakFraction e.2) 0.5)
                (Object_entries (tagStatsOf cards))))
          0 3.
Proof. by repeat split. Qed.

(** X26.  The mastered and the learning cards are disjoint groups: with
    the cards of confidence below 30 they make up the whole pool, so
    mastered + learning never exceeds the number of cards; and the count of
    new cards lies between 0 and the number of cards. *)
Theorem calculateStats_counts (cards : list FlashCard) :
  Stats.mastered (calculateStats cards) + Stats.learning (calculateStats cards)
    + Z.of_nat (length (filter (λ c, confidence c <? 30) cards))
  = Z.of_nat (length cards) ∧
  0 ≤ Stats.new (calculateStats cards) ≤ Z.of_nat (length cards).
Proof.
  destruct (calculateStats_fields cards) as (-> & -> & -> & _). split.
  - induction cards as [|c cards IH]; [done|].
    rewrite !filter_cons. cbn [length].
    destruct (Z.leb_spec 80 (confidence c)), (Z.leb_spec 30 (confidence c)),
      (Z.ltb_spec (confidence c) 80), (Z.ltb_spec (confidence c) 30);
      repeat case_decide; cbn in *; try done; try lia.
  - pose proof (length_filter (λ c, reviewCount c =? 0) cards). lia.
Qed.

Lemma sum_confidence_range (cards : list FlashCard) (sum : Z) :
  Forall (λ c, 0 ≤ confidence c ≤ 100) cards →
  sum ≤ fold_left (λ sum c, sum + confidence c) cards sum
      ≤ sum + 100 * Z.of_nat (length cards).
Proof.
  intros Hall. revert sum. induction Hall as [|c cards Hc _ IH]; intros sum.
  { cbn. lia. }
  cbn [fold_left length]. specialize (IH (sum + confidence c)). lia.
Qed.

(** X27.  For cards with confidence in [0,100] the average confidence lies
    in [0,100]; for the empty pool it is 0, not a division by zero. *)
Theorem calculateStats_average_range (cards : list FlashCard) :
  Forall (λ c, 0 ≤ confidence c ≤ 100) cards →
  (0 <= Stats.averageConfidence (calculateStats cards) <= 100)%Q ∧
  (cards = [] → Stats.averageConfidence (calculateStats cards) = 0%Q).
Proof.
  intros Hall. destruct (calculateStats_fields cards) as (_ & _ & _ & -> & _).
  split; [|by intros ->].
  pose proof (sum_confidence_range cards 0 Hall) as [Hlo Hhi].
  destruct (Z.ltb_spec 0 (Z.of_nat (length cards))) as [Hlen|_]; [|done].
  assert (0 < inject_Z (Z.of_nat (length cards)))%Q as Hpos
    by (by rewrite <- (Zlt_Qlt 0)).
  split.
  - apply Qle_shift_div_l; [done|]. rewrite Qmult_0_l. by rewrite <- (Zle_Qle 0).
  - apply Qle_shift_div_r; [done|].
    change 100%Q with (inject_Z 100). rewrite <- inject_Z_mult, <- Zle_Qle. lia.
Qed.

Lemma calculateStats_average_range_witness :
  (0 <= Stats.averageConfidence (calculateStats tagged_pool) <= 100)%Q ∧
  (tagged_pool = [] → Stats.averageConfidence (calculateStats tagged_pool) = 0%Q).
Proof.
  apply (calculateStats_average_range tagged_pool). repeat constructor; done.
Defined.

Section ObjFacts.
Context {V : Type}.
Implicit Types (o : Obj V) (k : string) (v : V).

Lemma own_get_Some o k v : own_get o k = Some v → (k, v) ∈ o.
Proof.
  induction o as [|[k' v'] o IH]; [done|]. cbn.
  destruct (String.eqb k' k) eqn:Heq.
  - apply String.eqb_eq in Heq. intros [= ->]. subst. left.
  - intros ?. right. by apply IH.
Qed.

Lemma own_get_obj_set o k v : own_get (obj_set o k v) k = Some v.
Proof.
  induction o as [|[k' v'] o IH]; cbn.
  - by rewrite String.eqb_refl.
  - destruct (String.eqb k' k) eqn:Heq; cbn; by rewrite Heq.
Qed.

Lemma obj_set_obj_set o k v w : obj_set (obj_set o k v) k w = obj_set o k w.
Proof.
  induction o as [|[k' v'] o IH]; cbn.
  - by rewrite String.eqb_refl.
  - destruct (String.eqb k' k) eqn:Heq; cbn; rewrite Heq; [done|]. by rewrite IH.
Qed.

Lemma Forall_obj_set (P : string * V → Prop) o k v :
  Forall P o → P (k, v) → Forall P (obj_set o k v).
Proof.
  intros Ho Hv. induction Ho as [|[k' v'] o Hx Ho IH]; cbn.
  - by constructor.
  - destruct (String.eqb k' k) eqn:Heq.
    + apply String.eqb_eq in Heq. subst. by constructor.
    + by constructor.
Qed.

Lemma elem_of_keys_obj_set o k v x :
  x ∈ (obj_set o k v).*1 → x = k ∨ x ∈ o.*1.
Proof.
  induction o as [|[k' v'] o IH]; cbn.
  - intros ->%list_elem_of_singleton. by left.
  - destruct (String.eqb k' k) eqn:Heq; cbn.
    + by right.
    + intros [->|Hx]%elem_of_cons; [right; left|].
      destruct (IH Hx) as [->|?]; [by left | right; by right].
Qed.

Lemma NoDup_keys_obj_set o k v : NoDup o.*1 → NoDup (obj_set o k v).*1.
Proof.
  induction o as [|[k' v'] o IH]; cbn.
  - intros _. apply NoDup_singleton.
  - rewrite NoDup_cons. intros [Hk' Hnd].
    destruct (String.eqb k' k) eqn:Heq; cbn.
    + by apply NoDup_cons.
    + apply NoDup_cons. split; [|by apply IH].
      intros [->|?]%elem_of_keys_obj_set; [|done].
      by rewrite String.eqb_refl in Heq.
Qed.

(** [Object.entries] lists every own property once. *)
Lemma Object_entries_Permutation o : Object_entries o ≡ₚ o.
Proof.
  unfold Object_entries. cbv zeta.
  rewrite Array_sort_Permutation. apply filter_app_complement.
Qed.
End ObjFacts.

Lemma fraction_above_half (total weak : Z) :
  0 < total → (0.5 < inject_Z weak / inject_Z total)%Q ↔ total < 2 * weak.
Proof.
  intros Ht. destruct total as [|p|p]; try lia.
  unfold Qlt, Qdiv, Qmult, Qinv. cbn. lia.
Qed.

Lemma countTag_ok (cards : list FlashCard) (card : FlashCard) (o : Obj TagStat.t)
    (tag : string) :
  card ∈ cards → has_tag card tag →
  NoDup o.*1 → Forall (entry_ok cards) o →
  NoDup (countTag card o tag).*1 ∧ Forall (entry_ok cards) (countTag card o tag).
Proof.
  intros Hcard Htag Hnd Hok. unfold countTag, obj_get.
  destruct (own_get o tag) as [stats|] eqn:Hget.
  - rewrite Hget. split; [by apply NoDup_keys_obj_set|].
    apply Forall_obj_set; [done|].
    apply own_get_Some in Hget. rewrite Forall_forall in Hok.
    destruct (Hok _ Hget) as (Ht & Hw0 & Hw & Hproto & Hsome & Hweak).
    unfold entry_ok. cbn [fst snd] in *.
    destruct (Z.ltb_spec (confidence card) 50);
      cbn [TagStat.total TagStat.weak]; repeat split; try lia; try done; eauto.
  - case_bool_decide as Hproto; cbv zeta; cbn match.
    + by rewrite Hget.
    + rewrite own_get_obj_set, obj_set_obj_set.
      split; [by apply NoDup_keys_obj_set|].
      apply Forall_obj_set; [done|]. unfold entry_ok. cbn [fst snd].
      destruct (Z.ltb_spec (confidence card) 50);
        cbn [TagStat.total TagStat.weak]; repeat split; try lia; try done; eauto.
Qed.

Lemma countCard_ok (cards : list FlashCard) (card : FlashCard) (o : Obj TagStat.t) :
  card ∈ cards → NoDup o.*1 → Forall (entry_ok cards) o →
  NoDup (countCard o card).*1 ∧ Forall (entry_ok cards) (countCard o card).
Proof.
  intros Hcard Hnd Hok. unfold countCard.
  destruct (tags card) as [l|] eqn:Htags; [|done].
  assert (∀ tag, tag ∈ l → has_tag card tag) as Hl by (intros tag ?; by exists l).
  clear Htags. revert o Hnd Hok.
  induction l as [|tag l IH]; intros o Hnd Hok; [done|].
  cbn [fold_left].
  destruct (countTag_ok cards card o tag) as [Hnd' Hok']; try done.
  { apply Hl. left. }
  apply IH; [|done..]. intros t Ht. apply Hl. by right.
Qed.

Lemma tagStats_ok (cards : list FlashCard) :
  NoDup (tagStatsOf cards).*1 ∧ Forall (entry_ok cards) (tagStatsOf cards).
Proof.
  unfold tagStatsOf.
  assert (∀ l o, (∀ c, c ∈ l → c ∈ cards) → NoDup o.*1 → Forall (entry_ok cards) o →
                 NoDup (fold_left countCard l o).*1
                 ∧ Forall (entry_ok cards) (fold_left countCard l o)) as Hgen.
  { induction l as [|c l IH]; intros o Hsub Hnd Hok; [done|].
    cbn [fold_left].
    destruct (countCard_ok cards c o) as [Hnd' Hok']; try done.
    { apply Hsub. left. }
    apply IH; [|done..]. intros x Hx. apply Hsub. by right. }
  apply Hgen; [done | constructor | constructor].
Qed.

(** X28.  In the tag dictionary every tag has one entry, and every entry
    counts at least one card and no more weak cards than cards, so the
    weak fraction never divides by zero and lies in [0,1]; its tag is
    carried by a card of the pool and is not a name inherited from
    [Object.prototype] (such tags get no entry). *)
Theorem tagStats_sound (cards : list FlashCard) :
  NoDup (tagStatsOf cards).*1 ∧
  ∀ tag stats, (tag, stats) ∈ tagStatsOf cards →
    1 ≤ TagStat.total stats ∧ 0 ≤ TagStat.weak stats ≤ TagStat.total stats ∧
    (0 <= weakFraction stats <= 1)%Q ∧
    ¬ (tag ∈ Object_prototype_keys) ∧
    ∃ card, card ∈ cards ∧ has_tag card tag.
Proof.
  destruct (tagStats_ok cards) as [Hnd Hok]. split; [done|].
  intros tag stats Hin. rewrite Forall_forall in Hok.
  destruct (Hok _ Hin) as (Ht & Hw0 & Hw & Hproto & Hsome & _). cbn [fst snd] in *.
  repeat split; try done.
  - unfold weakFraction. apply Qle_shift_div_l; [rewrite <- (Zlt_Qlt 0); lia|].
    rewrite Qmult_0_l. by rewrite <- (Zle_Qle 0).
  - unfold weakFraction. apply Qle_shift_div_r; [rewrite <- (Zlt_Qlt 0); lia|].
    rewrite Qmult_1_l. by rewrite <- Zle_Qle.
Qed.

Lemma tagStats_sound_sample :
  tagStatsOf tagged_pool
  = [("x", {| TagStat.total := 2; TagStat.weak := 1 |});
     ("10", {| TagStat.total := 1; TagStat.weak := 1 |});
     ("2", {| TagStat.total := 1; TagStat.weak := 1 |});
     ("y", {| TagStat.total := 3; TagStat.weak := 2 |})] ∧
  Stats.weakestTopics (calculateStats tagged_pool) = ["2"; "10"; "y"].
Proof. split; reflexivity. Qed.

(** X29.  The weakest topics are at most 3, pairwise distinct, and each of
    them is a tag of the dictionary of which more than half of the cards
    are weak, so it is carried by at least one card of confidence below
    50. *)
Theorem weakestTopics_sound (cards : list FlashCard) :
  (length (Stats.weakestTopics (calculateStats cards)) ≤ 3)%nat ∧
  NoDup (Stats.weakestTopics (calculateStats cards)) ∧
  ∀ tag, tag ∈ Stats.weakestTopics (calculateStats cards) →
    (∃ stats, (tag, stats) ∈ tagStatsOf cards ∧
              TagStat.total stats < 2 * TagStat.weak stats) ∧
    ∃ card, card ∈ cards ∧ has_tag card tag ∧ confidence card < 50.
Proof.
  destruct (calculateStats_fields cards) as (_ & _ & _ & _ & ->).
  destruct (tagStats_ok cards) as [Hnd Hok].
  set (weak := filter (λ e, Qgtb (weakFraction e.2) 0.5) (Object_entries (tagStatsOf cards))).
  set (ranked := Array_sort (λ a b, weakFraction b.2 - weakFraction a.2)%Q weak).
  assert (Array_slice ranked 0 3 `sublist_of` ranked) as Hsub
    by apply Array_slice_sublist.
  split; [|split].
  - rewrite length_fmap, length_Array_slice_prefix by done. lia.
  - eapply sublist_NoDup; [|by apply fmap_sublist].
    unfold ranked. rewrite Array_sort_Permutation.
    eapply sublist_NoDup; [|apply fmap_sublist, sublist_filter].
    by rewrite Object_entries_Permutation.
  - intros tag [[tag' stats] [-> Hin]]%list_elem_of_fmap. cbn [fst].
    eapply elem_of_sublist in Hin; [|exact Hsub].
    unfold ranked in Hin. rewrite Array_sort_Permutation in Hin.
    apply list_elem_of_filter in Hin as [Hhalf Hin].
    rewrite Object_entries_Permutation in Hin.
    rewrite Forall_forall in Hok.
    destruct (Hok _ Hin) as (Ht & Hw0 & Hw & _ & _ & Hweak). cbn [fst snd] in *.
    apply Is_true_true, Qgtb_true, fraction_above_half in Hhalf; [|lia].
    split; [by exists stats|]. apply Hweak. lia.
Qed.

Section SortByKey.
Context {A : Type} (compareFn : A → A → Q) (key : A → Q).
Hypothesis compareFn_key :
  ∀ a b, Qgtb (compareFn a b) 0 = true ↔ (key b < key a)%Q.

Lemma sort_insert_by_key (x : A) (l : list A) :
  StronglySorted (λ a b, key a <= key b)%Q l →
  StronglySorted (λ a b, key a <= key b)%Q (sort_insert compareFn x l).
Proof.
  induction 1 as [|y l Hl IH Hy]; cbn [sort_insert].
  { repeat constructor. }
  destruct (Qgtb _ _) eqn:Hcmp.
  - apply compareFn_key in Hcmp. constructor; [done|].
    rewrite sort_insert_Permutation. constructor; [by apply Qlt_le_weak | done].
  - assert (key x <= key y)%Q as Hxy.
    { apply Qnot_lt_le. intros Hlt. apply compareFn_key in Hlt. congruence. }
    constructor; [by constructor|]. constructor; [done|].
    eapply Forall_impl; [exact Hy|]. intros z Hz. cbn beta in *. by eapply Qle_trans.
Qed.

Lemma Array_sort_by_key (l : list A) :
  StronglySorted (λ a b, key a <= key b)%Q (Array_sort compareFn l).
Proof.
  induction l as [|x l IH]; [constructor|]. by apply sort_insert_by_key.
Qed.
End SortByKey.

Lemma NoDup_fmap_inj_on {A B} (f : A → B) (l : list A) (x y : A) :
  NoDup (f <$> l) → x ∈ l → y ∈ l → f x = f y → x = y.
Proof.
  induction l as [|a l IH]; [by intros _ ?%elem_of_nil|].
  rewrite fmap_cons, NoDup_cons, list_elem_of_fmap.
  intros [Ha Hnd] [->|Hx]%elem_of_cons [->|Hy]%elem_of_cons Heq; [done| | |by apply IH].
  - destruct Ha. by exists y.
  - destruct Ha. by exists x.
Qed.

(** X30.  The weakest topics are the top of the ranking: a tag with more
    than half of its cards weak that is not among the weakest topics has a
    weak fraction no larger than that of any tag that is. *)
Theorem weakestTopics_top (cards : list FlashCard) (tag other : string)
    (stats stats' : TagStat.t) :
  (tag, stats) ∈ tagStatsOf cards → (other, stats') ∈ tagStatsOf cards →
  tag ∈ Stats.weakestTopics (calculateStats cards) →
  other ∉ Stats.weakestTopics (calculateStats cards) →
  TagStat.total stats' < 2 * TagStat.weak stats' →
  (weakFraction stats' <= weakFraction stats)%Q.
Proof.
  destruct (calculateStats_fields cards) as (_ & _ & _ & _ & ->).
  destruct (tagStats_ok cards) as [Hnd Hok].
  set (weak := filter (λ e, Qgtb (weakFraction e.2) 0.5) (Object_entries (tagStatsOf cards))).
  set (ranked := Array_sort (λ a b, weakFraction b.2 - weakFraction a.2)%Q weak).
  rewrite Array_slice_prefix by done. change (Z.to_nat 3) with 3%nat.
  intros Hin Hin' Htop Hnot Hhalf.
  assert (StronglySorted (λ a b, - weakFraction a.2 <= - weakFraction b.2)%Q ranked)
    as Hsorted.
  { apply (Array_sort_by_key _ (λ e, - weakFraction e.2)%Q).
    intros a b. rewrite Qgtb_true. split; lra. }
  assert (∀ e, e ∈ ranked ↔ e ∈ tagStatsOf cards ∧ Qgtb (weakFraction e.2) 0.5) as Hranked.
  { intros e. unfold ranked. rewrite Array_sort_Permutation. unfold weak.
    by rewrite list_elem_of_filter, Object_entries_Permutation, (comm and). }
  rewrite <- (take_drop 3 ranked) in Hsorted.
  apply list_elem_of_fmap in Htop as ([tag1 stats1] & -> & Htake). cbn [fst] in Hin.
  assert ((tag1, stats1) ∈ ranked) as Hr by (eapply elem_of_sublist; [done|apply sublist_take]).
  apply Hranked in Hr as [Hr _].
  assert ((tag1, stats1) = (tag1, stats)) as [= ->]
    by (by apply (NoDup_fmap_inj_on fst (tagStatsOf cards))).
  assert ((other, stats') ∈ drop 3 ranked) as Hdrop.
  { assert ((other, stats') ∈ ranked) as Hr'.
    { apply Hranked. split; [done|]. cbn [snd]. apply Is_true_true, Qgtb_true.
      rewrite Forall_forall in Hok. destruct (Hok _ Hin') as (Ht & _). cbn [snd] in Ht.
      apply fraction_above_half; [lia | done]. }
    rewrite <- (take_drop 3 ranked), elem_of_app in Hr'. destruct Hr' as [Hr'|]; [|done].
    destruct Hnot. apply list_elem_of_fmap. by exists (other, stats'). }
  pose proof (StronglySorted_app_1_elem_of _ _ _ _ _ Hsorted Htake Hdrop) as Hle.
  cbn [snd] in Hle. lra.
Qed.

Lemma weakestTopics_top_witness :
  (weakFraction {| TagStat.total := 3; TagStat.weak := 2 |}
   <= weakFraction {| TagStat.total := 1; TagStat.weak := 1 |})%Q.
Proof.
  set (pool := [tagged "a" 10 (Some ["p"; "q"; "r"; "s"]); tagged "b" 20 (Some ["s"]);
                tagged "c" 90 (Some ["s"])]).
  apply (weakestTopics_top pool "p" "s").
  - vm_compute. apply list_elem_of_In. cbn. tauto.
  - vm_compute. apply list_elem_of_In. cbn. tauto.
  - vm_compute. apply list_elem_of_In. cbn. tauto.
  - vm_compute. intros Hin%list_elem_of_In. cbn in Hin.
    repeat destruct Hin as [Hin|Hin]; try discriminate. done.
  - done.
Defined.

Lemma tagStats_sound_witness :
  1 ≤ 3 ∧ 0 ≤ 2 ≤ 3 ∧
  (0 <= weakFraction {| TagStat.total := 3; TagStat.weak := 2 |} <= 1)%Q ∧
  ¬ ("y" ∈ Object_prototype_keys) ∧
  ∃ card, card ∈ tagged_pool ∧ has_tag card "y".
Proof.
  apply (proj2 (tagStats_sound tagged_pool) "y" {| TagStat.total := 3; TagStat.weak := 2 |}).
  vm_compute. apply list_elem_of_In. cbn. tauto.
Defined.

Lemma weakestTopics_sound_witness :
  (∃ stats, ("y", stats) ∈ tagStatsOf tagged_pool ∧
            TagStat.total stats < 2 * TagStat.weak stats) ∧
  ∃ card, card ∈ tagged_pool ∧ has_tag card "y" ∧ confidence card < 50.
Proof.
  apply (proj2 (proj2 (weakestTopics_sound tagged_pool)) "y").
  vm_compute. apply list_elem_of_In. cbn. tauto.
Defined.
